(** * libcron: parsing of cron expressions, next-occurrence calculation
      and execution of due tasks.

    Shallow embedding of [CronData.h] (process_parts, get_range, get_step,
    add_full_range, add_number, is_within_limits, validate_literal) together
    with the parts of the library that the sources only declare or use
    (CronData::parse/create, split, is_number, TimeTypes.h,
    CronSchedule::calculate_from and the Cron task list), modelled from the
    specification. *)

From Stdlib Require Import ZArith Lia List String Ascii Bool Sorted Permutation.
From Stdlib Require Import Numbers.DecimalString.
Import ListNotations.
Open Scope Z_scope.

(* ------------------------------------------------------------------ *)
(** ** Exceptions and divergence *)

(** The only exception the parser can raise is [std::out_of_range] from
    [std::stoi].  [Diverge] stands for a loop that never ends. *)
Inductive exn := out_of_range.

Inductive outcome (A : Type) : Type :=
| Ret (a : A)
| Throw (e : exn)
| Diverge.
Arguments Ret {A} a.
Arguments Throw {A} e.
Arguments Diverge {A}.

Definition bind {A B} (m : outcome A) (k : A -> outcome B) : outcome B :=
  match m with
  | Ret a => k a
  | Throw e => Throw e
  | Diverge => Diverge
  end.

Notation "x <- m ;; k" := (bind m (fun x => k))
  (at level 61, m at next level, right associativity).

(* ------------------------------------------------------------------ *)
(** ** Field kinds (TimeTypes.h) *)

Inductive FieldKind := Seconds | Minutes | Hours | DayOfMonth | Months | DayOfWeek.

(** Modelled from the spec: TimeTypes.h (the enums [Seconds], [Minutes],
    [Hours], [DayOfMonth], [Months], [DayOfWeek] with their [First] and
    [Last] members) is not among the sources; the spec fixes the bounds.
    CronData.h handles every value of a field type as 8 bits wide
    ([value_of] casts it to [uint8_t], the loops of [process_parts] count
    in [uint8_t]), so the enums are 8-bit types: see [to_T]. *)
Definition First (k : FieldKind) : Z :=
  match k with
  | Seconds | Minutes | Hours | DayOfWeek => 0
  | DayOfMonth | Months => 1
  end.

Definition Last (k : FieldKind) : Z :=
  match k with
  | Seconds | Minutes => 59
  | Hours => 23
  | DayOfMonth => 31
  | Months => 12
  | DayOfWeek => 6
  end.

Definition kinds : list FieldKind :=
  [Seconds; Minutes; Hours; DayOfMonth; Months; DayOfWeek].

(* ------------------------------------------------------------------ *)
(** ** std::set<T> *)

(** A [std::set<T>] as the list of its elements; [emplace] of an absent
    element appends it. *)
Definition set := list Z.

Definition find (s : set) (x : Z) : bool := existsb (Z.eqb x) s.

Definition emplace (s : set) (x : Z) : set := s ++ [x].

(* ------------------------------------------------------------------ *)
(** ** Limits *)

(** Modelled from the spec: CronData::is_between (CronData.cpp). *)
Definition is_between (value low_limit high_limit : Z) : bool :=
  (low_limit <=? value) && (value <=? high_limit).

Definition is_within_limits (k : FieldKind) (low high : Z) : bool :=
  is_between low (First k) (Last k) && is_between high (First k) (Last k).

(** [static_cast<T>] of an [int32_t] to an 8-bit field type keeps the low
    8 bits. The members of a set lie in [0, 59], so comparing them with the
    result is the same for an unsigned and a signed 8-bit [T]. *)
Definition to_T (x : Z) : Z := x mod 256.

(** [add_number]: the membership test, on [static_cast<T>(number)], comes
    before the range check. *)
Definition add_number (k : FieldKind) (s : set) (number : Z) : set * bool :=
  if find s (to_T number) then (s, true)
  else if is_within_limits k number number then (emplace s (to_T number), true)
  else (s, false).

(** [for (v = lo; ...; ++v) body], run [n] times; the bounds of every such
    loop in CronData.h are at most 59, so the [uint8_t] counter never wraps. *)
Fixpoint for_upto {A} (n : nat) (v : Z) (body : Z -> A -> A) (a : A) : A :=
  match n with
  | O => a
  | S n' => for_upto n' (v + 1) body (body v a)
  end.

Definition count_upto (lo hi : Z) : nat := Z.to_nat (hi - lo + 1).

Definition add_full_range (k : FieldKind) (s : set) : set :=
  for_upto (count_upto (First k) (Last k)) (First k)
    (fun v s => if find s v then s else emplace s v) s.

(** [res &= add_number(numbers, v)] *)
Definition add_acc (k : FieldKind) (acc : set * bool) (v : Z) : set * bool :=
  let r := add_number k (fst acc) v in (fst r, snd acc && snd r).

Definition range_loop (k : FieldKind) (lo hi : Z) (acc : set * bool) : set * bool :=
  for_upto (count_upto lo hi) lo (fun v a => add_acc k a v) acc.

(** The step loop: [for (auto v = step_start; v <= Last; v += step)] with
    [v] and [step] of type [uint8_t], so [v += step] is taken modulo 256.
    The counter has 256 values: a run that checks the condition more than
    256 times revisits a value and never ends, hence [step_fuel]. *)
Fixpoint step_loop (k : FieldKind) (fuel : nat) (v step : Z) (acc : set * bool)
  : outcome (set * bool) :=
  match fuel with
  | O => Diverge
  | S f =>
      if v <=? Last k then step_loop k f ((v + step) mod 256) step (add_acc k acc v)
      else Ret acc
  end.

Definition step_fuel : nat := 257.

(* ------------------------------------------------------------------ *)
(** ** Strings *)

Definition is_digit (c : ascii) : bool :=
  let n := nat_of_ascii c in ((48 <=? n)%nat && (n <=? 57)%nat).

Fixpoint all_digits (s : string) : bool :=
  match s with
  | EmptyString => true
  | String c r => is_digit c && all_digits r
  end.

(** Modelled from the spec: CronData::is_number (CronData.cpp), a plain
    integer: a non-empty string of decimal digits. *)
Definition is_number (s : string) : bool :=
  match s with
  | EmptyString => false
  | _ => all_digits s
  end.

Fixpoint digits_value (s : string) (acc : Z) : Z :=
  match s with
  | EmptyString => acc
  | String c r => digits_value r (acc * 10 + (Z.of_nat (nat_of_ascii c) - 48))
  end.

Definition INT_MAX : Z := 2147483647.

(** [std::stoi] on a string of decimal digits: throws [std::out_of_range]
    when the value does not fit an [int]. *)
Definition stoi (s : string) : outcome Z :=
  let v := digits_value s 0 in
  if v <=? INT_MAX then Ret v else Throw out_of_range.

(** Splitting at every character satisfying [sep]. *)
Fixpoint split_by (sep : ascii -> bool) (s : string) : list string :=
  match s with
  | EmptyString => [EmptyString]
  | String c r =>
      if sep c then EmptyString :: split_by sep r
      else match split_by sep r with
           | x :: xs => String c x :: xs
           | [] => [String c EmptyString]
           end
  end.

(** Modelled from the spec: CronData::split (CronData.cpp), strictly on
    the delimiter character, without trimming. *)
Definition split (s : string) (token : ascii) : list string :=
  split_by (fun c => Ascii.eqb c token) s.

Definition is_space (c : ascii) : bool :=
  match nat_of_ascii c with
  | 32 | 9 | 10 | 11 | 12 | 13 => true
  | _ => false
  end%nat.

Definition nonempty (s : string) : bool :=
  match s with EmptyString => false | _ => true end.

(** The whitespace-separated tokens of an expression. *)
Definition words (s : string) : list string := filter nonempty (split_by is_space s).

(** The first occurrence of [sep]: the text before and after it. *)
Fixpoint break_at (sep : ascii) (s : string) : option (string * string) :=
  match s with
  | EmptyString => None
  | String c r =>
      if Ascii.eqb c sep then Some (EmptyString, r)
      else match break_at sep r with
           | Some (a, b) => Some (String c a, b)
           | None => None
           end
  end.

(** [std::regex_match] of the whole string against [(\d+)SEP(\d+)]. *)
Definition match_pair (sep : ascii) (s : string) : option (string * string) :=
  match break_at sep s with
  | Some (a, b) => if is_number a && is_number b then Some (a, b) else None
  | None => None
  end.

(* ------------------------------------------------------------------ *)
(** ** get_range, get_step, process_parts *)

Definition get_range (k : FieldKind) (s : string) : outcome (option (Z * Z)) :=
  match match_pair "-"%char s with
  | Some (a, b) =>
      low <- stoi a ;;
      high <- stoi b ;;
      Ret (if is_within_limits k low high then Some (low, high) else None)
  | None => Ret None
  end.

(** [start] and [step] are narrowed with [static_cast<uint8_t>]. *)
Definition get_step (k : FieldKind) (s : string) : outcome (option (Z * Z)) :=
  match match_pair "/"%char s with
  | Some (a, b) =>
      raw_start <- stoi a ;;
      raw_step <- stoi b ;;
      Ret (if is_within_limits k raw_start raw_start && (0 <? raw_step)
           then Some (raw_start mod 256, raw_step mod 256) else None)
  | None => Ret None
  end.

(** One iteration of the loop of [process_parts]. *)
Definition process_part (k : FieldKind) (acc : set * bool) (p : string)
  : outcome (set * bool) :=
  if string_dec p "*" then Ret (add_full_range k (fst acc), snd acc)
  else if is_number p then
    n <- stoi p ;; Ret (add_acc k acc n)
  else
    r <- get_range k p ;;
    match r with
    | Some (low, high) =>
        (* [left] and [right] of the source *)
        Ret (if low <=? high then range_loop k low high acc
             else range_loop k (First k) high (range_loop k low (Last k) acc))
    | None =>
        st <- get_step k p ;;
        match st with
        | Some (step_start, step) => step_loop k step_fuel step_start step acc
        | None => Ret (fst acc, false)
        end
    end.

Fixpoint process_parts_from (k : FieldKind) (parts : list string) (acc : set * bool)
  : outcome (set * bool) :=
  match parts with
  | [] => Ret acc
  | p :: ps => acc' <- process_part k acc p ;; process_parts_from k ps acc'
  end.

Definition process_parts (k : FieldKind) (parts : list string) (numbers : set)
  : outcome (set * bool) :=
  process_parts_from k parts (numbers, true).

(* ------------------------------------------------------------------ *)
(** ** Names of months and days, validate_numeric, validate_literal *)

Open Scope string_scope.
Open Scope Z_scope.

(** Modelled from the spec: the name tables [month_names] and [day_names]
    filled by the constructor (CronData.cpp), by ascending ordinal. *)
Definition month_names : list string :=
  ["JAN"; "FEB"; "MAR"; "APR"; "MAY"; "JUN"; "JUL"; "AUG"; "SEP"; "OCT"; "NOV"; "DEC"].

Definition day_names : list string := ["SUN"; "MON"; "TUE"; "WED"; "THU"; "FRI"; "SAT"].

Definition toupper (c : ascii) : ascii :=
  let n := nat_of_ascii c in
  if ((97 <=? n)%nat && (n <=? 122)%nat) then ascii_of_nat (n - 32) else c.

Definition ci_eq (a b : ascii) : bool := Ascii.eqb (toupper a) (toupper b).

(** [w] is a prefix of [s], ignoring case. *)
Fixpoint ci_prefix (w s : string) : bool :=
  match w, s with
  | EmptyString, _ => true
  | String a w', String b s' => ci_eq a b && ci_prefix w' s'
  | String _ _, EmptyString => false
  end.

(** [std::regex_replace] with the literal pattern [w] (ECMAScript, icase):
    every match, leftmost first and without overlap, is replaced by [repl].
    [skip] counts the characters still to drop of the last match. *)
Fixpoint regex_replace_ci (w repl : string) (skip : nat) (s : string) : string :=
  match s with
  | EmptyString => EmptyString
  | String c r =>
      match skip with
      | S k => regex_replace_ci w repl k r
      | O =>
          if ci_prefix w s then repl ++ regex_replace_ci w repl (pred (String.length w)) r
          else String c (regex_replace_ci w repl O r)
      end
  end.

(** [std::to_string] *)
Definition to_string (x : Z) : string := NilEmpty.string_of_int (Z.to_int x).

(** The loop of [validate_literal]: for each name, by ascending value,
    replace it in every part by [std::to_string] of its value. *)
Fixpoint replace_names (names : list string) (value : Z) (parts : list string)
  : list string :=
  match names with
  | [] => parts
  | name :: names' =>
      replace_names names' (value + 1)
        (map (regex_replace_ci name (to_string value) O) parts)
  end.

Definition validate_numeric (k : FieldKind) (s : string) (numbers : set)
  : outcome (set * bool) :=
  process_parts k (split s ",") numbers.

Definition validate_literal (k : FieldKind) (s : string) (numbers : set)
  (names : list string) : outcome (set * bool) :=
  process_parts k (replace_names names (First k) (split s ",")) numbers.

(* ------------------------------------------------------------------ *)
(** ** CronData *)

Record CronData := {
  seconds : set;
  minutes : set;
  hours : set;
  day_of_month : set;
  months : set;
  day_of_week : set;
  valid : bool
}.

Definition get_field (k : FieldKind) (d : CronData) : set :=
  match k with
  | Seconds => seconds d
  | Minutes => minutes d
  | Hours => hours d
  | DayOfMonth => day_of_month d
  | Months => months d
  | DayOfWeek => day_of_week d
  end.

Definition empty_data : CronData :=
  {| seconds := []; minutes := []; hours := []; day_of_month := [];
     months := []; day_of_week := []; valid := false |}.

(** Modelled from the spec: CronData::create and CronData::parse
    (CronData.cpp).  The expression is split on whitespace runs; with
    exactly six tokens each token is validated into its own, initially
    empty, set (every field is processed, the results are combined with
    [&=]), otherwise the result is invalid with empty sets.  An exception
    from the validation leaves [create]. *)
Definition create (cron_expression : string) : outcome CronData :=
  match words cron_expression with
  | [s; mi; h; dom; mo; dow] =>
      r1 <- validate_numeric Seconds s [] ;;
      r2 <- validate_numeric Minutes mi [] ;;
      r3 <- validate_numeric Hours h [] ;;
      r4 <- validate_numeric DayOfMonth dom [] ;;
      r5 <- validate_literal Months mo [] month_names ;;
      r6 <- validate_literal DayOfWeek dow [] day_names ;;
      Ret {| seconds := fst r1; minutes := fst r2; hours := fst r3;
             day_of_month := fst r4; months := fst r5; day_of_week := fst r6;
             valid := snd r1 && snd r2 && snd r3 && snd r4 && snd r5 && snd r6 |}
  | _ => Ret empty_data
  end.

(** The parts a token of field [k] is processed as. *)
Definition names_of (k : FieldKind) : list string :=
  match k with
  | Months => month_names
  | DayOfWeek => day_names
  | _ => []
  end.

Definition field_parts (k : FieldKind) (tok : string) : list string :=
  replace_names (names_of k) (First k) (split tok ",").

(* ------------------------------------------------------------------ *)
(** ** The values a part denotes *)

(** [lo, lo+1, ..., lo+n-1] *)
Fixpoint zseq (n : nat) (v : Z) : list Z :=
  match n with
  | O => []
  | S n' => v :: zseq n' (v + 1)
  end.

Definition zrange (lo hi : Z) : list Z := zseq (count_upto lo hi) lo.

(** The values visited by the [uint8_t] step loop. *)
Fixpoint step_values (k : FieldKind) (fuel : nat) (v step : Z) : outcome (list Z) :=
  match fuel with
  | O => Diverge
  | S f =>
      if v <=? Last k then vs <- step_values k f ((v + step) mod 256) step ;; Ret (v :: vs)
      else Ret []
  end.

(** The values [process_parts] tries to add for one part, shape by shape;
    [None] when the part has none of the shapes. *)
Definition part_values (k : FieldKind) (p : string) : outcome (option (list Z)) :=
  if string_dec p "*" then Ret (Some (zrange (First k) (Last k)))
  else if is_number p then
    n <- stoi p ;; Ret (Some [n])
  else
    r <- get_range k p ;;
    match r with
    | Some (low, high) =>
        Ret (Some (if low <=? high then zrange low high
                   else (zrange low (Last k) ++ zrange (First k) high)%list))
    | None =>
        st <- get_step k p ;;
        match st with
        | Some (step_start, step) =>
            vs <- step_values k step_fuel step_start step ;; Ret (Some vs)
        | None => Ret None
        end
    end.

Definition inb (k : FieldKind) (x : Z) : Prop := First k <= x <= Last k.

Definition inb_b (k : FieldKind) (x : Z) : bool := is_between x (First k) (Last k).

(** A part is accepted when it has one of the shapes and every value it
    denotes lies within the bounds of its field. *)
Definition part_ok (k : FieldKind) (p : string) : Prop :=
  exists vs, part_values k p = Ret (Some vs) /\ Forall (inb k) vs.

Definition set_inb (k : FieldKind) (s : set) : Prop := forall x, In x s -> inb k x.

Definition add_list (k : FieldKind) (acc : set * bool) (vs : list Z) : set * bool :=
  fold_left (add_acc k) vs acc.

Definition part_okb (k : FieldKind) (p : string) : bool :=
  match part_values k p with
  | Ret (Some vs) => forallb (inb_b k) vs
  | _ => false
  end.

(** The same test on the values cast to the 8-bit field type, as the
    membership test of [add_number] sees them. *)
Definition part_modb (k : FieldKind) (p : string) : bool :=
  match part_values k p with
  | Ret (Some vs) => forallb (fun v => inb_b k (to_T v)) vs
  | _ => false
  end.

(** The validation of one token, numeric or literal. *)
Definition validate (k : FieldKind) (tok : string) (numbers : set) : outcome (set * bool) :=
  process_parts k (field_parts k tok) numbers.

(** The position of each field in the expression. *)
Definition kind_index (k : FieldKind) : nat :=
  match k with
  | Seconds => 0 | Minutes => 1 | Hours => 2
  | DayOfMonth => 3 | Months => 4 | DayOfWeek => 5
  end.

(** Letters, ignoring case. *)
Definition letter (c : ascii) : bool :=
  let n := nat_of_ascii (toupper c) in ((65 <=? n)%nat && (n <=? 90)%nat).

Fixpoint no_letters (s : string) : bool :=
  match s with
  | EmptyString => true
  | String c r => negb (letter c) && no_letters r
  end.

Definition starts_with_letter (w : string) : bool :=
  match w with
  | EmptyString => false
  | String a _ => letter a
  end.

(** A case-insensitive occurrence of [w] in [s]. *)
Fixpoint occurs_ci (w s : string) : bool :=
  ci_prefix w s ||
  match s with
  | EmptyString => false
  | String _ r => occurs_ci w r
  end.

Fixpoint all_letters (s : string) : bool :=
  match s with
  | EmptyString => true
  | String c r => letter c && all_letters r
  end.

(** The shape of the names and of their replacements. *)
Definition name_ok (w : string) : bool := nonempty w && all_letters w.

Definition repl_ok (r : string) : bool := nonempty r && no_letters r.

Fixpoint names_ok (names : list string) (value : Z) : bool :=
  match names with
  | [] => true
  | w :: ns => name_ok w && repl_ok (to_string value) && names_ok ns (value + 1)
  end.

Definition tolower (c : ascii) : ascii :=
  let n := nat_of_ascii c in
  if ((65 <=? n)%nat && (n <=? 90)%nat) then ascii_of_nat (n + 32) else c.

Fixpoint lower (s : string) : string :=
  match s with
  | EmptyString => EmptyString
  | String c r => String (tolower c) (lower r)
  end.

(** Test-style checks, read off the result of [create]. *)
Definition valid_of (s : string) : bool :=
  match create s with Ret d => valid d | _ => false end.

Definition field_of (s : string) (k : FieldKind) : set :=
  match create s with Ret d => get_field k d | _ => [] end.

(* ------------------------------------------------------------------ *)
(** ** Calendar *)

(** Instants are [std::chrono::system_clock] time points in whole seconds
    since 1970-01-01T00:00:00. *)
Definition seconds_per_day : Z := 86400.

(** Modelled from the spec: the calendar collaborator (the date library
    behind [to_calendar_time]), days since 1970-01-01 to the proleptic
    Gregorian (year, month, day). *)
Definition civil_from_days (z : Z) : Z * Z * Z :=
  let z := z + 719468 in
  let era := z / 146097 in
  let doe := z - era * 146097 in
  let yoe := (doe - doe / 1460 + doe / 36524 - doe / 146096) / 365 in
  let y := yoe + era * 400 in
  let doy := doe - (365 * yoe + yoe / 4 - yoe / 100) in
  let mp := (5 * doy + 2) / 153 in
  let d := doy - (153 * mp + 2) / 5 + 1 in
  let m := if mp <? 10 then mp + 3 else mp - 9 in
  (if m <=? 2 then y + 1 else y, m, d).

(** 1970-01-01 was a Thursday; Sunday is 0. *)
Definition weekday_from_days (z : Z) : Z := (z + 4) mod 7.

Record DateTime := {
  year : Z; month : Z; day : Z; hour : Z; min : Z; sec : Z
}.

Definition to_calendar_time (time : Z) : DateTime :=
  let daypoint := time / seconds_per_day in
  let time_of_day := time mod seconds_per_day in
  let '(y, m, d) := civil_from_days daypoint in
  {| year := y; month := m; day := d;
     hour := time_of_day / 3600; min := (time_of_day mod 3600) / 60;
     sec := time_of_day mod 60 |}.

(* ------------------------------------------------------------------ *)
(** ** CronSchedule::calculate_from *)

Definition day_allowed (data : CronData) (days : Z) : bool :=
  let '(_, m, d) := civil_from_days days in
  find (months data) m && find (day_of_month data) d
  && find (day_of_week data) (weekday_from_days days).

(** The seconds of the day whose hour, minute and second are in the sets. *)
Definition times_of_day (data : CronData) : list Z :=
  flat_map (fun h =>
    flat_map (fun mi => map (fun s => h * 3600 + mi * 60 + s) (seconds data))
      (minutes data)) (hours data).

Fixpoint list_min (l : list Z) : option Z :=
  match l with
  | [] => None
  | x :: r => match list_min r with None => Some x | Some m => Some (Z.min x m) end
  end.

Definition first_time_from (data : CronData) (lo : Z) : option Z :=
  list_min (filter (fun t => lo <=? t) (times_of_day data)).

Fixpoint search_days (data : CronData) (n : nat) (days lo : Z) : option Z :=
  match n with
  | O => None
  | S n' =>
      match (if day_allowed data days then first_time_from data lo else None) with
      | Some t => Some (days * seconds_per_day + t)
      | None => search_days data n' (days + 1) 0
      end
  end.

(** The search horizon: five years of days. *)
Definition horizon_days : nat := 1827.

(** Modelled from the spec: CronSchedule::calculate_from (only declared in
    CronSchedule.h): the earliest instant strictly after [from] whose
    month, day of month, day of week, hour, minute and second are all in
    the sets of [data], looked for day by day over the horizon; [false]
    when the expression is invalid or nothing is found. *)
Definition calculate_from (data : CronData) (from : Z) : bool * Z :=
  if valid data then
    let start := from + 1 in
    match search_days data horizon_days (start / seconds_per_day)
            (start mod seconds_per_day) with
    | Some t => (true, t)
    | None => (false, from)
    end
  else (false, from).

(* ------------------------------------------------------------------ *)
(** ** The task list (Cron) *)

Section Scheduler.
Variable Schedule : Type.
(** The next occurrence of a schedule strictly after an instant. *)
Variable next_after : Schedule -> Z -> option Z.

Record Task := {
  task_id : nat;
  task_name : string;
  task_schedule : Schedule;
  task_next : option Z
}.

(** Order of the next occurrences; a task without one comes last. *)
Definition key_le (a b : option Z) : bool :=
  match a, b with
  | Some x, Some y => x <=? y
  | _, None => true
  | None, Some _ => false
  end.

Definition task_le (t u : Task) : Prop := key_le (task_next t) (task_next u) = true.

(** Insertion behind every task whose next occurrence is not later. *)
Fixpoint insert_task (t : Task) (ts : list Task) : list Task :=
  match ts with
  | [] => [t]
  | u :: us => if key_le (task_next u) (task_next t) then u :: insert_task t us else t :: ts
  end.

Definition is_due (reference_time : Z) (t : Task) : bool :=
  match task_next t with
  | Some z => z <=? reference_time
  | None => false
  end.

Definition fire (reference_time : Z) (t : Task) : Task :=
  {| task_id := task_id t; task_name := task_name t; task_schedule := task_schedule t;
     task_next := next_after (task_schedule t) reference_time |}.

(** While the first task is due: run its callback (recorded as its id),
    compute its next occurrence after [reference_time] and put it back
    in order.  Every task is due at most once per call, so the length of
    the list bounds the iterations. *)
Fixpoint execute_loop (fuel : nat) (reference_time : Z) (ts : list Task)
  (fired : list nat) : list Task * list nat :=
  match fuel with
  | O => (ts, fired)
  | S f =>
      match ts with
      | t :: rest =>
          if is_due reference_time t
          then execute_loop f reference_time (insert_task (fire reference_time t) rest)
                 (fired ++ [task_id t])%list
          else (ts, fired)
      | [] => (ts, fired)
      end
  end.

(** Modelled from the spec: Cron::execute_expired_tasks (Cron.h is not
    among the sources; its tests are): the tasks after the call, the
    callbacks run, in order, and their number. *)
Definition execute_expired_tasks (reference_time : Z) (ts : list Task)
  : list Task * list nat * nat :=
  let '(ts', fired) := execute_loop (List.length ts) reference_time ts [] in
  (ts', fired, List.length fired).

(** Modelled from the spec: Cron::add_schedule for a valid schedule, the
    first occurrence being computed from [now]. *)
Definition add_schedule (id : nat) (name : string) (sched : Schedule) (now : Z)
  (ts : list Task) : list Task :=
  insert_task {| task_id := id; task_name := name; task_schedule := sched;
                 task_next := next_after sched now |} ts.
End Scheduler.

Arguments task_id {Schedule} t.
Arguments task_name {Schedule} t.
Arguments task_schedule {Schedule} t.
Arguments task_next {Schedule} t.
Arguments insert_task {Schedule} t ts.
Arguments task_le {Schedule} t u.
Arguments is_due {Schedule} reference_time t.
Arguments fire {Schedule} next_after reference_time t.
Arguments execute_loop {Schedule} next_after fuel reference_time ts fired.
Arguments execute_expired_tasks {Schedule} next_after reference_time ts.
Arguments add_schedule {Schedule} next_after id name sched now ts.

(** [calculate_from] as the next occurrence of a task. *)
Definition cron_next (data : CronData) (t : Z) : option Z :=
  let '(found, t') := calculate_from data t in if found then Some t' else None.

(** Every run of the [uint8_t] step loop of every field, from every start
    within the bounds and with every step from 1 to 255, ends within
    [step_fuel] iterations. *)
Definition step_loop_ends : bool :=
  forallb (fun k =>
    forallb (fun v =>
      forallb (fun step =>
        match step_values k step_fuel v step with Diverge => false | _ => true end)
        (zrange 1 255))
      (zrange (First k) (Last k)))
    kinds.

(** A string with [toupper] applied to every character. *)
Fixpoint upper (s : string) : string :=
  match s with
  | EmptyString => EmptyString
  | String c r => String (toupper c) (upper r)
  end.

Fixpoint all_chars (f : ascii -> bool) (s : string) : bool :=
  match s with
  | EmptyString => true
  | String c r => f c && all_chars f r
  end.

(** Modelled from the spec, to compare with [field_parts]: a part read as a
    sequence of segments, each a name of the field in any case or a run of
    characters without letters, and the part the spec makes of it, with
    each name replaced in place by the numeral of its ordinal. *)
Inductive seg := Name (w : string) | Lit (l : string).

Definition seg_str (s : seg) : string :=
  match s with Name w => w | Lit l => l end.

Fixpoint segs_str (ss : list seg) : string :=
  match ss with
  | [] => EmptyString
  | s :: r => (seg_str s ++ segs_str r)%string
  end.

Definition seg_ok (names : list string) (s : seg) : bool :=
  match s with
  | Name w => existsb (String.eqb (upper w)) names
  | Lit l => no_letters l
  end.

(** The position of [w] in the table. *)
Fixpoint name_index (names : list string) (w : string) : option nat :=
  match names with
  | [] => None
  | n :: ns => if String.eqb w n then Some O else option_map S (name_index ns w)
  end.

Definition spec_seg_value (names : list string) (first : Z) (s : seg) : seg :=
  match s with
  | Name w =>
      match name_index names (upper w) with
      | Some i => Lit (to_string (first + Z.of_nat i))
      | None => Name w
      end
  | Lit l => Lit l
  end.

Definition spec_substituted (k : FieldKind) (ss : list seg) : string :=
  segs_str (map (spec_seg_value (names_of k) (First k)) ss).

(** One round of the loop of [validate_literal] on the segments. *)
Definition subst_seg (w repl : string) (s : seg) : seg :=
  match s with
  | Name u => if String.eqb (upper u) w then Lit repl else Name u
  | Lit l => Lit l
  end.

(** No match of [w] starts inside [x] when [y] follows it. *)
Fixpoint no_match_in (w x y : string) : bool :=
  match x with
  | EmptyString => true
  | String c r => negb (ci_prefix w (String c r ++ y)) && no_match_in w r y
  end.

(** The names of a table have three letters, are upper case, and no name
    starts inside another one and runs into the name after it. *)
Definition table_ok (T : list string) : bool :=
  forallb (fun w => (String.length w =? 3)%nat && name_ok w && String.eqb (upper w) w) T &&
  forallb (fun w => forallb (fun u =>
    String.eqb w u || (negb (ci_prefix w u) && forallb (no_match_in w u) T)) T) T.

(** The characters a part made only of numerals, '-' and '/' uses. *)
Definition numeral_char (c : ascii) : bool :=
  is_digit c || Ascii.eqb c "-" || Ascii.eqb c "/".

(** The invariant of the accumulator of [process_parts]. *)
Definition acc_inv (k : FieldKind) (acc : set * bool) : Prop := set_inb k (fst acc).

(** 2010-01-01T00:00:00 in seconds since 1970-01-01T00:00:00. *)
Definition midnight_2010 : Z := 1262304000.

Definition sched_of (s : string) : CronData :=
  match create s with Ret d => d | _ => empty_data end.

(** Two tasks added at [midnight_2010], due every 3 and every 5 seconds. *)
Definition task_3s : Task CronData :=
  {| task_id := 0; task_name := "3s"; task_schedule := sched_of "0/3 * * * * *";
     task_next := Some (midnight_2010 + 3) |}.

Definition task_5s : Task CronData :=
  {| task_id := 1; task_name := "5s"; task_schedule := sched_of "0/5 * * * * *";
     task_next := Some (midnight_2010 + 5) |}.

Definition example_tasks : list (Task CronData) := [task_3s; task_5s].

(* ================================================================== *)
(** * Proofs *)

Example ex_all_stars : valid_of "* * * * * *" = true.
Proof. vm_compute. reflexivity. Qed.

Example ex_backward_hours : field_of "* * 20-5 * * *" Hours = [20;21;22;23;0;1;2;3;4;5].
Proof. vm_compute. reflexivity. Qed.

Example ex_literal : field_of "* * * * JAN-MAR,DEC *" Months = [1;2;3;12].
Proof. vm_compute. reflexivity. Qed.

Example ex_days : field_of "* * * * * sat-tue,wed" DayOfWeek = [6;0;1;2;3].
Proof. vm_compute. reflexivity. Qed.

Example ex_step : field_of "* * * * JAN/2 *" Months = [1;3;5;7;9;11].
Proof. vm_compute. reflexivity. Qed.

Example ex_invalid :
  map valid_of ["";  "-"; "* "; "* 0-60 * * * *"; "* * 0-25 * * *"; "* * * 1-32 * *";
                "* * * * 1-13 *"; "* * * * * 0-7"; "* * * 0-31 * *"; "* * * * 0-12 *";
                "60 * * * * *"; "* 60 * * * *"; "* * 25 * * *"; "* * * 32 * *";
                "* * * * 13 *"; "* * * * * 7"; "0, 3 * * * * *"]
  = repeat false 17.
Proof. vm_compute. reflexivity. Qed.



(* ------------------------------------------------------------------ *)
(** ** Sets and loops *)

Lemma find_In (s : set) (x : Z) : find s x = true <-> In x s.
Proof.
  unfold find. rewrite existsb_exists. split.
  - intros [y [Hy Heq]]. apply Z.eqb_eq in Heq. subst. exact Hy.
  - intros H. exists x. split; [exact H | apply Z.eqb_refl].
Qed.

Lemma inb_b_inb (k : FieldKind) (x : Z) : inb_b k x = true <-> inb k x.
Proof.
  unfold inb_b, inb, is_between. rewrite andb_true_iff, !Z.leb_le. tauto.
Qed.

Lemma within_limits_inb (k : FieldKind) (x : Z) :
  is_within_limits k x x = inb_b k x.
Proof. unfold is_within_limits, inb_b. apply andb_diag. Qed.

Lemma for_upto_ind {A} (P : A -> Prop) (body : Z -> A -> A) :
  forall n v a,
    (forall w b, v <= w < v + Z.of_nat n -> P b -> P (body w b)) ->
    P a -> P (for_upto n v body a).
Proof.
  induction n as [|n IH]; intros v a Hb Ha; simpl; [exact Ha|].
  apply IH.
  - intros w b Hw. apply Hb. lia.
  - apply Hb; [lia | exact Ha].
Qed.

Lemma for_upto_add_list (k : FieldKind) :
  forall n v acc,
    for_upto n v (fun w a => add_acc k a w) acc = add_list k acc (zseq n v).
Proof.
  induction n as [|n IH]; intros v acc; simpl; [reflexivity|]. apply IH.
Qed.

Lemma range_loop_add_list (k : FieldKind) (lo hi : Z) (acc : set * bool) :
  range_loop k lo hi acc = add_list k acc (zrange lo hi).
Proof. apply for_upto_add_list. Qed.

Lemma add_list_app (k : FieldKind) (acc : set * bool) (xs ys : list Z) :
  add_list k acc (xs ++ ys) = add_list k (add_list k acc xs) ys.
Proof. unfold add_list. apply fold_left_app. Qed.

Lemma step_loop_values (k : FieldKind) :
  forall fuel v step acc,
    step_loop k fuel v step acc =
    (vs <- step_values k fuel v step ;; Ret (add_list k acc vs)).
Proof.
  induction fuel as [|f IH]; intros v step acc; simpl; [reflexivity|].
  destruct (v <=? Last k); [|reflexivity].
  rewrite IH. destruct (step_values k f ((v + step) mod 256) step); reflexivity.
Qed.

Lemma zseq_In (n : nat) (v x : Z) : In x (zseq n v) <-> v <= x < v + Z.of_nat n.
Proof.
  revert v. induction n as [|n IH]; intros v; simpl; [lia|].
  rewrite IH. lia.
Qed.

Lemma zrange_In (lo hi x : Z) : In x (zrange lo hi) <-> lo <= x <= hi.
Proof.
  unfold zrange, count_upto. rewrite zseq_In.
  lia.
Qed.

Lemma to_T_inb (k : FieldKind) (n : Z) : inb k n -> to_T n = n.
Proof. unfold inb, to_T. intros H. apply Z.mod_small. destruct k; simpl in H; lia. Qed.

Lemma add_number_inb (k : FieldKind) (s : set) (n : Z) :
  set_inb k s -> set_inb k (fst (add_number k s n)).
Proof.
  unfold add_number. intros H.
  destruct (find s (to_T n)); [exact H|].
  destruct (is_within_limits k n n) eqn:E; [|exact H].
  rewrite within_limits_inb, inb_b_inb in E. rewrite (to_T_inb k n E).
  intros x Hx. unfold emplace in Hx. simpl in Hx.
  apply in_app_or in Hx as [Hx | [Hx | []]]; [apply H, Hx | subst; exact E].
Qed.

(** The flag of [add_number]: true when the cast value is already there,
    or when the number is within the bounds. *)
Lemma add_number_snd (k : FieldKind) (s : set) (n : Z) :
  snd (add_number k s n) = find s (to_T n) || inb_b k n.
Proof.
  unfold add_number. destruct (find s (to_T n)); [reflexivity|].
  rewrite within_limits_inb. destruct (inb_b k n); reflexivity.
Qed.

Lemma add_number_snd_inb (k : FieldKind) (s : set) (n : Z) :
  inb k n -> snd (add_number k s n) = true.
Proof.
  intros H. rewrite add_number_snd. apply inb_b_inb in H. rewrite H, orb_true_r. reflexivity.
Qed.

Lemma add_number_In (k : FieldKind) (s : set) (n x : Z) :
  In x (fst (add_number k s n)) <-> In x s \/ (x = n /\ inb k n).
Proof.
  unfold add_number.
  destruct (find s (to_T n)) eqn:F.
  - apply find_In in F. simpl. split; [tauto|]. intros [Hx | [-> Hn]]; [exact Hx|].
    rewrite (to_T_inb k n Hn) in F. exact F.
  - destruct (is_within_limits k n n) eqn:E; simpl;
      rewrite within_limits_inb in E; unfold emplace.
    + apply inb_b_inb in E. rewrite (to_T_inb k n E). rewrite in_app_iff. simpl.
      split; [|intuition].
      intros [Hx | [Hx | []]]; [left; exact Hx | right; split; [congruence | exact E]].
    + split; [tauto|]. intros [Hx | [-> Hn]]; [exact Hx|].
      apply inb_b_inb in Hn. congruence.
Qed.

Lemma add_number_NoDup (k : FieldKind) (s : set) (n : Z) :
  NoDup s -> NoDup (fst (add_number k s n)).
Proof.
  unfold add_number. intros H.
  destruct (find s (to_T n)) eqn:F; [exact H|].
  destruct (is_within_limits k n n); [|exact H]. simpl. unfold emplace.
  apply NoDup_app; [exact H | constructor; [intros [] | constructor] |].
  intros x Hx [Hn | []]. subst. apply find_In in Hx. congruence.
Qed.

Lemma add_list_inb (k : FieldKind) :
  forall vs acc, acc_inv k acc -> acc_inv k (add_list k acc vs).
Proof.
  induction vs as [|v vs IH]; intros acc H; simpl; [exact H|].
  apply IH. apply add_number_inb, H.
Qed.

(** Values within the bounds leave the flag as it was. *)
Lemma add_list_snd (k : FieldKind) :
  forall vs acc, forallb (inb_b k) vs = true -> snd (add_list k acc vs) = snd acc.
Proof.
  induction vs as [|v vs IH]; intros acc H; simpl; [reflexivity|].
  apply andb_true_iff in H as [Hv H]. rewrite IH by exact H. simpl.
  rewrite add_number_snd_inb by (apply inb_b_inb, Hv). apply andb_true_r.
Qed.

(** The flag never goes back from false to true. *)
Lemma add_list_snd_false (k : FieldKind) :
  forall vs acc, snd acc = false -> snd (add_list k acc vs) = false.
Proof.
  induction vs as [|v vs IH]; intros acc H; simpl; [exact H|].
  apply IH. simpl. rewrite H. reflexivity.
Qed.

Lemma add_list_In (k : FieldKind) :
  forall vs acc x, acc_inv k acc ->
    (In x (fst (add_list k acc vs)) <-> In x (fst acc) \/ (In x vs /\ inb k x)).
Proof.
  induction vs as [|v vs IH]; intros acc x H; simpl; [tauto|].
  rewrite IH by (apply add_number_inb, H). simpl.
  rewrite add_number_In. split.
  - intros [[Hx | [-> Hv]] | [Hx Hb]]; [left; exact Hx | | ]; right; tauto.
  - intros [Hx | [[-> | Hx] Hb]]; [left; left; exact Hx | left; right; tauto | right; tauto].
Qed.

Lemma add_list_NoDup (k : FieldKind) :
  forall vs acc, NoDup (fst acc) -> NoDup (fst (add_list k acc vs)).
Proof.
  induction vs as [|v vs IH]; intros acc H; simpl; [exact H|].
  apply IH. apply add_number_NoDup, H.
Qed.

Lemma zseq_full_range (k : FieldKind) :
  forall n v acc,
    (forall w, v <= w < v + Z.of_nat n -> inb k w) ->
    add_list k acc (zseq n v) =
    (for_upto n v (fun w s => if find s w then s else emplace s w) (fst acc), snd acc).
Proof.
  induction n as [|n IH]; intros v acc Hw; simpl.
  - destruct acc; reflexivity.
  - rewrite IH by (intros w Hw'; apply Hw; lia).
    assert (Hv : inb k v) by (apply Hw; lia).
    unfold add_acc, add_number. rewrite (to_T_inb k v Hv). simpl.
    destruct (find (fst acc) v); simpl; [rewrite andb_true_r; reflexivity|].
    rewrite within_limits_inb. apply inb_b_inb in Hv. rewrite Hv. simpl.
    rewrite andb_true_r. reflexivity.
Qed.

Lemma add_full_range_add_list (k : FieldKind) (acc : set * bool) :
  add_list k acc (zrange (First k) (Last k)) = (add_full_range k (fst acc), snd acc).
Proof.
  unfold zrange, add_full_range. apply zseq_full_range.
  intros w Hw. unfold inb, count_upto in *. destruct k; simpl in *; lia.
Qed.

(** One iteration of [process_parts] adds the values of the part. *)
Lemma process_part_values (k : FieldKind) (acc : set * bool) (p : string) :
  process_part k acc p =
  (o <- part_values k p ;;
   Ret (match o with
        | Some vs => add_list k acc vs
        | None => (fst acc, false)
        end)).
Proof.
  unfold process_part, part_values.
  destruct (string_dec p "*").
  { cbv [bind]. rewrite add_full_range_add_list. reflexivity. }
  destruct (is_number p).
  { destruct (stoi p); reflexivity. }
  destruct (get_range k p) as [[[low high]|]| |]; cbv [bind]; try reflexivity.
  - destruct (low <=? high).
    + rewrite range_loop_add_list. reflexivity.
    + rewrite !range_loop_add_list, add_list_app. reflexivity.
  - destruct (get_step k p) as [[[a b]|]| |]; cbv [bind]; try reflexivity.
    rewrite step_loop_values. cbv [bind].
    destruct (step_values k step_fuel a b); reflexivity.
Qed.

Lemma part_okb_ok (k : FieldKind) (p : string) : part_okb k p = true <-> part_ok k p.
Proof.
  unfold part_okb, part_ok.
  destruct (part_values k p) as [[vs|]| |]; split;
    try discriminate; try (intros [vs' [H _]]; discriminate).
  - intros H. exists vs. split; [reflexivity|].
    apply Forall_forall. intros x Hx. apply inb_b_inb.
    rewrite forallb_forall in H. apply H, Hx.
  - intros [vs' [H Hf]]. injection H as <-.
    apply forallb_forall. intros x Hx. apply inb_b_inb.
    rewrite Forall_forall in Hf. apply Hf, Hx.
Qed.

Lemma add_list_snd_true (k : FieldKind) :
  forall vs acc, acc_inv k acc -> snd (add_list k acc vs) = true ->
    snd acc = true /\ forallb (fun v => inb_b k (to_T v)) vs = true.
Proof.
  induction vs as [|v vs IH]; intros acc Hi H; simpl in *; [split; [exact H | reflexivity]|].
  assert (Hi2 : acc_inv k (add_acc k acc v)) by (apply add_number_inb, Hi).
  destruct (IH _ Hi2 H) as [H1 H2]. simpl in H1.
  apply andb_true_iff in H1 as [H0 H1]. rewrite add_number_snd in H1.
  split; [exact H0|]. rewrite H2, andb_true_r. apply inb_b_inb.
  apply orb_true_iff in H1 as [F | B].
  - apply find_In, Hi in F. exact F.
  - apply inb_b_inb in B. rewrite (to_T_inb k v B). exact B.
Qed.

Lemma process_parts_from_ret (k : FieldKind) :
  forall parts acc acc',
    process_parts_from k parts acc = Ret acc' -> acc_inv k acc ->
    acc_inv k acc' /\
    (forallb (part_okb k) parts = true -> snd acc' = snd acc) /\
    (snd acc' = true -> snd acc = true /\ forallb (part_modb k) parts = true).
Proof.
  induction parts as [|p ps IH]; intros acc acc' Hr Hi; simpl in Hr.
  - injection Hr as <-. split; [exact Hi|]. split; [reflexivity|]. intros H; split; [exact H | reflexivity].
  - rewrite process_part_values in Hr. cbn [forallb].
    destruct (part_values k p) as [[vs|]| |] eqn:Pv; simpl in Hr; try discriminate.
    + assert (Eo : part_okb k p = forallb (inb_b k) vs) by (unfold part_okb; rewrite Pv; reflexivity).
      assert (Em : part_modb k p = forallb (fun v => inb_b k (to_T v)) vs)
        by (unfold part_modb; rewrite Pv; reflexivity).
      rewrite Eo, Em.
      apply IH in Hr as [Hi' [Hok Hmod]]; [|apply add_list_inb, Hi].
      split; [exact Hi'|]. split.
      * intros H. apply andb_true_iff in H as [H1 H2].
        rewrite (Hok H2). apply add_list_snd, H1.
      * intros H. destruct (Hmod H) as [H1 H2].
        destruct (add_list_snd_true k vs acc Hi H1) as [H3 H4].
        split; [exact H3|]. rewrite H4, H2. reflexivity.
    + assert (Eo : part_okb k p = false) by (unfold part_okb; rewrite Pv; reflexivity).
      rewrite Eo.
      apply IH in Hr as [Hi' [Hok Hmod]]; [|exact Hi].
      split; [exact Hi'|]. split; [discriminate|].
      intros H. destruct (Hmod H) as [H1 _]. discriminate.
Qed.

(* ------------------------------------------------------------------ *)
(** ** create *)

Lemma validate_numeric_validate (k : FieldKind) (tok : string) (numbers : set) :
  names_of k = [] -> validate_numeric k tok numbers = validate k tok numbers.
Proof. intros H. unfold validate, field_parts. rewrite H. reflexivity. Qed.

Lemma validate_literal_validate (k : FieldKind) (tok : string) (numbers : set) :
  validate_literal k tok numbers (names_of k) = validate k tok numbers.
Proof. reflexivity. Qed.

Lemma create_ret (s : string) (d : CronData) :
  create s = Ret d ->
  (List.length (words s) <> 6%nat /\ d = empty_data) \/
  (List.length (words s) = 6%nat /\
   exists bs : FieldKind -> bool,
     (forall k tok, nth_error (words s) (kind_index k) = Some tok ->
        validate k tok [] = Ret (get_field k d, bs k)) /\
     valid d = bs Seconds && bs Minutes && bs Hours && bs DayOfMonth
               && bs Months && bs DayOfWeek).
Proof.
  unfold create. intros H.
  destruct (words s) as [|t1 [|t2 [|t3 [|t4 [|t5 [|t6 [|t7 l]]]]]]] eqn:W;
    try (left; injection H as <-; split; [discriminate | reflexivity]).
  right. split; [reflexivity|].
  rewrite (validate_numeric_validate Seconds), (validate_numeric_validate Minutes),
    (validate_numeric_validate Hours), (validate_numeric_validate DayOfMonth) in H
    by reflexivity.
  change month_names with (names_of Months) in H.
  change day_names with (names_of DayOfWeek) in H.
  rewrite !validate_literal_validate in H.
  destruct (validate Seconds t1 []) as [r1| |] eqn:E1; cbv [bind] in H; try discriminate.
  destruct (validate Minutes t2 []) as [r2| |] eqn:E2; cbv [bind] in H; try discriminate.
  destruct (validate Hours t3 []) as [r3| |] eqn:E3; cbv [bind] in H; try discriminate.
  destruct (validate DayOfMonth t4 []) as [r4| |] eqn:E4; cbv [bind] in H; try discriminate.
  destruct (validate Months t5 []) as [r5| |] eqn:E5; cbv [bind] in H; try discriminate.
  destruct (validate DayOfWeek t6 []) as [r6| |] eqn:E6; cbv [bind] in H; try discriminate.
  injection H as <-.
  exists (fun k => match k with
           | Seconds => snd r1 | Minutes => snd r2 | Hours => snd r3
           | DayOfMonth => snd r4 | Months => snd r5 | DayOfWeek => snd r6
           end).
  split; [|reflexivity].
  intros k tok Hk. destruct k; simpl in Hk; injection Hk as <-;
    [rewrite E1; destruct r1 | rewrite E2; destruct r2 | rewrite E3; destruct r3
    | rewrite E4; destruct r4 | rewrite E5; destruct r5 | rewrite E6; destruct r6];
    reflexivity.
Qed.

Lemma words_six_token (s : string) (k : FieldKind) :
  List.length (words s) = 6%nat -> exists tok, nth_error (words s) (kind_index k) = Some tok.
Proof.
  intros H. destruct (nth_error (words s) (kind_index k)) as [tok|] eqn:E; [eauto|].
  apply nth_error_None in E. destruct k; simpl in E; lia.
Qed.

Lemma validate_ret (k : FieldKind) (tok : string) (S : set) (b : bool) :
  validate k tok [] = Ret (S, b) ->
  set_inb k S /\
  (forallb (part_okb k) (field_parts k tok) = true -> b = true) /\
  (b = true -> forallb (part_modb k) (field_parts k tok) = true).
Proof.
  unfold validate, process_parts. intros H.
  apply process_parts_from_ret in H as [Hi [Hok Hmod]]; [|intros x []].
  split; [exact Hi|]. split; [exact Hok|]. intros Hb. apply (Hmod Hb).
Qed.

Lemma valid_all (d : CronData) (bs : FieldKind -> bool) :
  valid d = bs Seconds && bs Minutes && bs Hours && bs DayOfMonth && bs Months && bs DayOfWeek ->
  (valid d = true <-> forall k, bs k = true).
Proof.
  intros ->. rewrite !andb_true_iff. split.
  - intros [[[[[H1 H2] H3] H4] H5] H6] k. destruct k; assumption.
  - intros H. repeat split; apply H.
Qed.

(* ------------------------------------------------------------------ *)
(** ** Name substitution *)

Lemma ci_eq_letter (a c : ascii) : ci_eq a c = true -> letter a = letter c.
Proof. unfold ci_eq, letter. intros H. apply Ascii.eqb_eq in H. rewrite H. reflexivity. Qed.

Lemma replace_no_letters (w repl : string) :
  starts_with_letter w = true ->
  forall p, no_letters p = true -> regex_replace_ci w repl O p = p.
Proof.
  intros Hw p. induction p as [|c r IH]; intros Hp; [reflexivity|].
  simpl in Hp. apply andb_true_iff in Hp as [Hc Hr].
  destruct w as [|a w']; [discriminate|]. simpl in Hw.
  simpl. destruct (ci_eq a c) eqn:E.
  - apply ci_eq_letter in E. rewrite E in Hw. rewrite Hw in Hc. discriminate.
  - simpl. rewrite IH by exact Hr. reflexivity.
Qed.

Lemma replace_names_keep (names : list string) :
  forallb starts_with_letter names = true ->
  forall v parts p, In p parts -> no_letters p = true -> In p (replace_names names v parts).
Proof.
  induction names as [|w names IH]; intros Hn v parts p Hp Hl; simpl; [exact Hp|].
  simpl in Hn. apply andb_true_iff in Hn as [Hw Hn].
  apply IH; [exact Hn | | exact Hl].
  rewrite <- (replace_no_letters w (to_string v) Hw p Hl). apply in_map, Hp.
Qed.

Lemma names_start_with_letters (k : FieldKind) : forallb starts_with_letter (names_of k) = true.
Proof. destruct k; vm_compute; reflexivity. Qed.

Lemma field_parts_keep (k : FieldKind) (tok p : string) :
  In p (split tok ",") -> no_letters p = true -> In p (field_parts k tok).
Proof. intros. apply replace_names_keep; auto using names_start_with_letters. Qed.

Lemma boundary_parts_rejected (k : FieldKind) :
  part_okb k (to_string (First k - 1)) = false /\ no_letters (to_string (First k - 1)) = true /\
  part_okb k (to_string (Last k + 1)) = false /\ no_letters (to_string (Last k + 1)) = true.
Proof. destruct k; vm_compute; repeat split. Qed.

(* ------------------------------------------------------------------ *)
(** ** Validity of a parsed expression *)

(* ------------------------------------------------------------------ *)
(** ** Bounds of the field sets *)

Lemma process_part_inb (k : FieldKind) (acc acc' : set * bool) (p : string) :
  acc_inv k acc -> process_part k acc p = Ret acc' -> acc_inv k acc'.
Proof.
  intros Hi H. rewrite process_part_values in H.
  destruct (part_values k p) as [[vs|]| |]; cbv [bind] in H; try discriminate;
    injection H as <-; [apply add_list_inb, Hi | exact Hi].
Qed.

(** C9: every member of each of the six sets of a parsed expression lies
    within the bounds of its field, whether the expression is valid or
    not (each step of the parser keeps this invariant:
    [process_part_inb]). *)
Theorem create_fields_within_bounds (s : string) (d : CronData) :
  create s = Ret d -> forall k x, In x (get_field k d) -> First k <= x <= Last k.
Proof.
  intros H k x Hx.
  apply create_ret in H as [[_ ->] | [H6 [bs [Hv _]]]].
  - destruct k; destruct Hx.
  - destruct (words_six_token s k H6) as [tok Ht].
    apply Hv, validate_ret in Ht as [Hi _]. apply Hi, Hx.
Qed.

(* ------------------------------------------------------------------ *)
(** ** The full range *)

Lemma zseq_length (n : nat) (v : Z) : List.length (zseq n v) = n.
Proof. revert v. induction n as [|n IH]; intros v; simpl; [reflexivity | rewrite IH; reflexivity]. Qed.

Lemma zseq_NoDup (n : nat) (v : Z) : NoDup (zseq n v).
Proof.
  revert v. induction n as [|n IH]; intros v; simpl; constructor; [|apply IH].
  rewrite zseq_In. lia.
Qed.

Lemma field_parts_star (k : FieldKind) : field_parts k "*" = ["*"].
Proof. destruct k; vm_compute; reflexivity. Qed.

Lemma validate_star (k : FieldKind) :
  validate k "*" [] = Ret (fst (add_list k ([], true) (zrange (First k) (Last k))), true).
Proof.
  assert (Hs : snd (add_list k ([], true) (zrange (First k) (Last k))) = true).
  { rewrite add_list_snd; [reflexivity|].
    apply forallb_forall. intros x Hx. apply inb_b_inb, zrange_In, Hx. }
  unfold validate, process_parts. rewrite field_parts_star. cbn [process_parts_from].
  rewrite process_part_values. unfold part_values.
  destruct (string_dec "*" "*") as [_|C]; [|contradiction]. cbv [bind].
  match goal with
  | |- Ret ?X = _ => change X with (add_list k ([], true) (zrange (First k) (Last k)))
  end.
  destruct (add_list k ([], true) (zrange (First k) (Last k))) as [S b].
  simpl in Hs. subst b. reflexivity.
Qed.

Lemma add_list_in_range (k : FieldKind) (x : Z) :
  In x (fst (add_list k ([], true) (zrange (First k) (Last k)))) <-> First k <= x <= Last k.
Proof.
  rewrite add_list_In by (intros y []). simpl. rewrite zrange_In.
  unfold inb. tauto.
Qed.

(** C5: in a valid expression, a field whose token is [*] holds every
    value of its bounds, once each: 60 seconds and minutes, 24 hours,
    31 days of the month, 12 months and 7 days of the week. *)
Theorem create_star_full_range (s : string) (d : CronData) (k : FieldKind) :
  create s = Ret d -> valid d = true ->
  nth_error (words s) (kind_index k) = Some "*" ->
  (forall x, In x (get_field k d) <-> First k <= x <= Last k) /\
  NoDup (get_field k d) /\
  List.length (get_field k d) = Z.to_nat (Last k - First k + 1) /\
  map (fun k => Z.to_nat (Last k - First k + 1)) kinds = [60; 60; 24; 31; 12; 7]%nat.
Proof.
  intros H Hval Ht.
  apply create_ret in H as [[_ ->] | [H6 [bs [Hv _]]]]; [discriminate|].
  specialize (Hv k "*" Ht). rewrite validate_star in Hv. injection Hv as Hf _.
  assert (Hin : forall x, In x (get_field k d) <-> First k <= x <= Last k).
  { intros x. rewrite <- Hf, add_list_in_range. reflexivity. }
  assert (Hnd : NoDup (get_field k d)).
  { rewrite <- Hf. apply add_list_NoDup. constructor. }
  split; [exact Hin|]. split; [exact Hnd|]. split; [|reflexivity].
  assert (Hp : Permutation (get_field k d) (zrange (First k) (Last k))).
  { apply NoDup_Permutation; [exact Hnd | apply zseq_NoDup |].
    intros x. rewrite Hin, zrange_In. reflexivity. }
  rewrite (Permutation_length Hp). unfold zrange, count_upto. apply zseq_length.
Qed.

(* ------------------------------------------------------------------ *)
(** ** Shapes of parts *)

Lemma part_rejected_invalid (s : string) (d : CronData) (k : FieldKind) (tok p : string) :
  create s = Ret d -> nth_error (words s) (kind_index k) = Some tok ->
  In p (field_parts k tok) -> part_modb k p = false -> valid d = false.
Proof.
  intros H Ht Hp Hb.
  apply create_ret in H as [[_ ->] | [H6 [bs [Hv Hd]]]]; [reflexivity|].
  destruct (valid d) eqn:V; [|reflexivity].
  rewrite <- V in Hd. apply (valid_all d bs Hd) with (k := k) in V.
  apply Hv, validate_ret in Ht as [_ [_ Hk]]. specialize (Hk V).
  rewrite forallb_forall in Hk. rewrite Hk in Hb by exact Hp. discriminate.
Qed.

(** C1: a part equal to [First - 1] or [Last + 1] of its field makes the
    whole expression invalid, for every string [create] returns on; but
    validity is not "every part within the bounds": the membership test of
    [add_number] runs on [static_cast<T>(number)] before the range check,
    so a numeral past 255 whose low 8 bits name a value already in the set
    is taken without a check. ["0,256"] is a valid seconds field holding
    only 0, while ["256"] on its own, or before the 0 (["256,0"]), makes
    the expression invalid; the part ["256"] is out of the bounds all the
    same. *)
Theorem create_valid_cast_alias :
  (forall s d k tok, create s = Ret d -> nth_error (words s) (kind_index k) = Some tok ->
     In (to_string (First k - 1)) (split tok ",") \/ In (to_string (Last k + 1)) (split tok ",") ->
     valid d = false) /\
  valid_of "0,256 * * * * *" = true /\
  field_of "0,256 * * * * *" Seconds = [0] /\
  part_okb Seconds "256" = false /\
  valid_of "256,0 * * * * *" = false /\
  valid_of "256 * * * * *" = false /\
  valid_of "* * * 1,257 * *" = true.
Proof.
  split; [|vm_compute; repeat split].
  intros s d k tok H Ht Hp.
  destruct (boundary_parts_rejected k) as [_ [N1 [_ N2]]].
  destruct Hp as [Hp | Hp].
  - apply (part_rejected_invalid s d k tok (to_string (First k - 1)) H Ht);
      [apply field_parts_keep; assumption | destruct k; vm_compute; reflexivity].
  - apply (part_rejected_invalid s d k tok (to_string (Last k + 1)) H Ht);
      [apply field_parts_keep; assumption | destruct k; vm_compute; reflexivity].
Qed.

Lemma digit_neq (c sep : ascii) : is_digit c = true -> is_digit sep = false -> Ascii.eqb c sep = false.
Proof.
  intros Hc Hs. destruct (Ascii.eqb c sep) eqn:E; [|reflexivity].
  apply Ascii.eqb_eq in E. subst. congruence.
Qed.

Lemma break_at_digits_app (sep : ascii) (a b : string) :
  all_digits a = true -> is_digit sep = false ->
  break_at sep (a ++ b) =
  match break_at sep b with Some (x, y) => Some (a ++ x, y) | None => None end.
Proof.
  intros Ha Hs. induction a as [|c a IH]; simpl.
  - destruct (break_at sep b) as [[x y]|]; reflexivity.
  - simpl in Ha. apply andb_true_iff in Ha as [Hc Ha].
    rewrite (digit_neq c sep Hc Hs), IH by exact Ha.
    destruct (break_at sep b) as [[x y]|]; reflexivity.
Qed.

Lemma break_at_digits (sep : ascii) (a : string) :
  all_digits a = true -> is_digit sep = false -> break_at sep a = None.
Proof.
  intros Ha Hs. induction a as [|c a IH]; simpl; [reflexivity|].
  simpl in Ha. apply andb_true_iff in Ha as [Hc Ha].
  rewrite (digit_neq c sep Hc Hs), IH by exact Ha. reflexivity.
Qed.

Lemma string_app_nil (a : string) : a ++ "" = a.
Proof. induction a as [|c a IH]; simpl; [reflexivity | rewrite IH; reflexivity]. Qed.

Lemma all_digits_app (a b : string) : all_digits (a ++ b) = all_digits a && all_digits b.
Proof. induction a as [|c a IH]; simpl; [reflexivity | rewrite IH; apply andb_assoc]. Qed.

Lemma is_number_all_digits (a : string) : is_number a = true -> all_digits a = true.
Proof. destruct a; [discriminate | exact (fun H => H)]. Qed.

(** The parts [dl SEP dh] of two numerals. *)
Lemma match_pair_joined (sep other : ascii) (dl dh : string) :
  is_number dl = true -> is_number dh = true ->
  is_digit sep = false -> is_digit other = false -> Ascii.eqb sep other = false ->
  match_pair sep (dl ++ String sep dh) = Some (dl, dh) /\
  match_pair other (dl ++ String sep dh) = None /\
  is_number (dl ++ String sep dh) = false /\
  dl ++ String sep dh <> "*".
Proof.
  intros Hl Hh Hs Ho Hso.
  pose proof (is_number_all_digits _ Hl) as Al.
  pose proof (is_number_all_digits _ Hh) as Ah.
  split; [|split; [|split]].
  - unfold match_pair. rewrite break_at_digits_app by assumption. cbn [break_at].
    rewrite Ascii.eqb_refl, string_app_nil, Hl, Hh. reflexivity.
  - unfold match_pair. rewrite break_at_digits_app by assumption. cbn [break_at].
    rewrite Hso, break_at_digits by assumption. reflexivity.
  - destruct dl as [|c dl]; [discriminate|].
    change (all_digits (String c dl ++ String sep dh) = false).
    rewrite all_digits_app. simpl. rewrite Hs. rewrite !andb_false_r. reflexivity.
  - destruct dl as [|c dl]; [discriminate|]. simpl. intros E. injection E as Ec _.
    subst c. simpl in Hl. discriminate.
Qed.

Lemma range_part_values (k : FieldKind) (dl dh : string) :
  is_number dl = true -> is_number dh = true ->
  part_values k (dl ++ String "-" dh) =
  (low <- stoi dl ;; high <- stoi dh ;;
   if is_within_limits k low high then
     Ret (Some (if low <=? high then zrange low high
                else (zrange low (Last k) ++ zrange (First k) high)%list))
   else Ret None).
Proof.
  intros Hl Hh.
  destruct (match_pair_joined "-" "/" dl dh Hl Hh) as [M1 [M2 [M3 M4]]];
    try reflexivity.
  unfold part_values. destruct (string_dec _ "*"); [contradiction|]. rewrite M3.
  unfold get_range. rewrite M1.
  destruct (stoi dl) as [low| |]; cbv [bind]; try reflexivity.
  destruct (stoi dh) as [high| |]; cbv [bind]; try reflexivity.
  destruct (is_within_limits k low high); [reflexivity|].
  unfold get_step. rewrite M2. reflexivity.
Qed.

Lemma stoi_ret (a : string) (v : Z) : stoi a = Ret v -> v = digits_value a 0.
Proof.
  unfold stoi. destruct (digits_value a 0 <=? INT_MAX); [|discriminate].
  intros H. injection H as <-. reflexivity.
Qed.

Lemma stoi_small (a : string) : digits_value a 0 <= INT_MAX -> stoi a = Ret (digits_value a 0).
Proof. unfold stoi. intros H. apply Z.leb_le in H. rewrite H. reflexivity. Qed.

Lemma within_limits_iff (k : FieldKind) (low high : Z) :
  is_within_limits k low high = true <-> inb k low /\ inb k high.
Proof.
  unfold is_within_limits. rewrite andb_true_iff.
  change (inb_b k low = true /\ inb_b k high = true <-> inb k low /\ inb k high).
  rewrite !inb_b_inb. reflexivity.
Qed.

Lemma range_values_inb (k : FieldKind) (low high x : Z) :
  inb k low -> inb k high ->
  In x (if low <=? high then zrange low high
        else (zrange low (Last k) ++ zrange (First k) high)%list) ->
  inb k x.
Proof.
  unfold inb. intros Hl Hh Hx.
  destruct (low <=? high); [apply zrange_In in Hx; lia|].
  apply in_app_or in Hx as [Hx | Hx]; apply zrange_In in Hx; lia.
Qed.

(** C2: a part [low-high] of two numerals within the bounds of its field
    adds exactly [low..high] when [low <= high], and [low..Last] together
    with [First..high] otherwise (the hour range [20-5] gives the ten
    hours 20 to 23 and 0 to 5); with a bound outside the field the part is
    rejected and no parse of an expression containing it is valid. *)
Theorem range_part_semantics (k : FieldKind) (dl dh : string) (acc : set * bool) :
  is_number dl = true -> is_number dh = true -> set_inb k (fst acc) ->
  let low := digits_value dl 0 in
  let high := digits_value dh 0 in
  (inb k low /\ inb k high ->
     exists S', process_part k acc (dl ++ "-" ++ dh) = Ret (S', snd acc) /\
     forall x, In x S' <-> In x (fst acc) \/
        (low <= high /\ low <= x <= high) \/
        (high < low /\ (low <= x <= Last k \/ First k <= x <= high))) /\
  (~ (inb k low /\ inb k high) ->
     part_okb k (dl ++ "-" ++ dh) = false /\
     forall s d tok, create s = Ret d -> nth_error (words s) (kind_index k) = Some tok ->
       In (dl ++ "-" ++ dh) (field_parts k tok) -> valid d = false) /\
  field_of "* * 20-5 * * *" Hours = [20; 21; 22; 23; 0; 1; 2; 3; 4; 5].
Proof.
  intros Hl Hh Hi low high.
  change ("-" ++ dh) with (String "-" dh).
  split; [|split; [|vm_compute; reflexivity]].
  - intros [Bl Bh].
    assert (Sl : stoi dl = Ret low)
      by (apply stoi_small; unfold inb in Bl; destruct k; simpl in Bl; unfold INT_MAX; lia).
    assert (Sh : stoi dh = Ret high)
      by (apply stoi_small; unfold inb in Bh; destruct k; simpl in Bh; unfold INT_MAX; lia).
    assert (W : is_within_limits k low high = true) by (apply within_limits_iff; tauto).
    rewrite process_part_values, range_part_values by assumption.
    rewrite Sl, Sh. cbv [bind]. rewrite W. cbv [bind].
    set (vs := if low <=? high then zrange low high
               else (zrange low (Last k) ++ zrange (First k) high)%list).
    exists (fst (add_list k acc vs)). split.
    + f_equal. rewrite (surjective_pairing (add_list k acc vs)) at 1. f_equal.
      apply add_list_snd. apply forallb_forall. intros x Hx.
      apply inb_b_inb, (range_values_inb k low high); assumption.
    + intros x. rewrite add_list_In by exact Hi. split.
      * intros [Hx | [Hx Hb]]; [left; exact Hx | right].
        unfold vs in Hx. destruct (Z.leb_spec low high).
        -- apply zrange_In in Hx. left. lia.
        -- apply in_app_or in Hx as [Hx | Hx]; apply zrange_In in Hx; right; lia.
      * intros [Hx | Hx]; [left; exact Hx | right].
        split; [|apply (range_values_inb k low high); [exact Bl | exact Bh |]];
          unfold vs; destruct (Z.leb_spec low high);
          try (apply zrange_In; lia);
          (apply in_or_app; rewrite !zrange_In; lia).
  - intros Hn.
    assert (Hb : part_okb k (dl ++ String "-" dh) = false).
    { unfold part_okb. rewrite range_part_values by assumption.
      destruct (stoi dl) as [l| |] eqn:El; cbv [bind]; try reflexivity.
      destruct (stoi dh) as [h| |] eqn:Eh; cbv [bind]; try reflexivity.
      apply stoi_ret in El, Eh.
      destruct (is_within_limits k l h) eqn:W; [|reflexivity].
      apply within_limits_iff in W. subst l h. contradiction. }
    assert (Hm : part_modb k (dl ++ String "-" dh) = false).
    { unfold part_modb. rewrite range_part_values by assumption.
      destruct (stoi dl) as [l| |] eqn:El; cbv [bind]; try reflexivity.
      destruct (stoi dh) as [h| |] eqn:Eh; cbv [bind]; try reflexivity.
      apply stoi_ret in El, Eh.
      destruct (is_within_limits k l h) eqn:W; [|reflexivity].
      apply within_limits_iff in W. subst l h. contradiction. }
    split; [exact Hb|].
    intros s d tok H Ht Hp. exact (part_rejected_invalid s d k tok _ H Ht Hp Hm).
Qed.

(* ------------------------------------------------------------------ *)
(** ** Substitution of names *)

Section Replace.
Variables (n repl : string).
Hypothesis n_ok : name_ok n = true.
Hypothesis repl_good : repl_ok repl = true.

Let R := regex_replace_ci n repl.

Lemma ci_prefix_nonletter (w : string) (c : ascii) (r : string) :
  name_ok w = true -> letter c = false -> ci_prefix w (String c r) = false.
Proof.
  destruct w as [|a w]; [discriminate|]. intros Hw Hc. simpl.
  unfold name_ok in Hw. simpl in Hw. apply andb_true_iff in Hw as [Ha _].
  destruct (ci_eq a c) eqn:E; [|reflexivity].
  apply ci_eq_letter in E. congruence.
Qed.

Lemma repl_first : exists c r, repl = String c r /\ letter c = false /\ no_letters r = true.
Proof.
  unfold repl_ok in repl_good. destruct repl as [|c r]; [discriminate|].
  simpl in repl_good. apply andb_true_iff in repl_good as [Hc Hr].
  exists c, r. split; [reflexivity|]. split; [destruct (letter c); [discriminate | reflexivity] | exact Hr].
Qed.

(** A run of letters read in the result was already in the source,
    and no match of [n] started there. *)
Lemma prefix_of_replaced :
  forall w s, name_ok w = true -> ci_prefix w (R O s) = true ->
    ci_prefix w s = true /\ ci_prefix n s = false.
Proof.
  induction w as [|a w IH]; intros s Hw H; [discriminate|].
  destruct s as [|c r]; [discriminate|].
  unfold R in H. simpl in H.
  destruct (ci_prefix n (String c r)) eqn:M.
  - exfalso. destruct repl_first as [c' [r' [E [Hc' _]]]].
    rewrite E in H. simpl in H. apply andb_true_iff in H as [H _].
    apply ci_eq_letter in H.
    unfold name_ok in Hw. simpl in Hw. apply andb_true_iff in Hw as [Ha _].
    congruence.
  - split; [|reflexivity].
    simpl in H. apply andb_true_iff in H as [Hac Hw'].
    simpl. rewrite Hac. simpl.
    destruct w as [|b w]; [reflexivity|].
    unfold name_ok in Hw. simpl in Hw. apply andb_true_iff in Hw as [_ Hw].
    apply (IH r); [unfold name_ok; simpl; exact Hw | exact Hw'].
Qed.

Lemma replace_drop :
  forall s j, R (S j) s = match s with EmptyString => EmptyString | String _ r => R j r end.
Proof. intros [|c r] j; reflexivity. Qed.

Lemma occurs_app_nonletters (w x y : string) :
  name_ok w = true -> no_letters x = true -> occurs_ci w (x ++ y) = occurs_ci w y.
Proof.
  intros Hw. induction x as [|c x IH]; intros Hx; [reflexivity|].
  simpl in Hx. apply andb_true_iff in Hx as [Hc Hx].
  simpl (String c x ++ y). unfold occurs_ci at 1. fold occurs_ci.
  rewrite ci_prefix_nonletter; [| exact Hw | destruct (letter c); [discriminate | reflexivity]].
  simpl. apply IH, Hx.
Qed.

(** After the replacement no match of [n] is left. *)
Lemma replace_clears : forall s skip, occurs_ci n (R skip s) = false.
Proof.
  induction s as [|c r IH]; intros skip.
  - destruct skip; unfold R; simpl;
      destruct n as [|a n']; try discriminate; reflexivity.
  - destruct skip as [|j].
    + unfold R. simpl. destruct (ci_prefix n (String c r)) eqn:M.
      * rewrite occurs_app_nonletters; [apply IH | exact n_ok |].
        unfold repl_ok in repl_good. apply andb_true_iff in repl_good as [_ H]. exact H.
      * unfold occurs_ci at 1. fold occurs_ci.
        fold (R O r). rewrite IH, orb_false_r.
        destruct (ci_prefix n (String c (R O r))) eqn:P; [|reflexivity].
        assert (E : R O (String c r) = String c (R O r))
          by (unfold R; simpl; rewrite M; reflexivity).
        rewrite <- E in P. apply prefix_of_replaced in P as [P _]; [congruence | exact n_ok].
    + rewrite replace_drop. apply IH.
Qed.

(** The replacement creates no match of another name. *)
Lemma replace_keeps_absent :
  forall w s skip, name_ok w = true -> occurs_ci w s = false -> occurs_ci w (R skip s) = false.
Proof.
  intros w s. induction s as [|c r IH]; intros skip Hw Ho.
  - destruct skip; exact Ho.
  - simpl in Ho. apply orb_false_iff in Ho as [Hp Hr].
    destruct skip as [|j].
    + unfold R. simpl. destruct (ci_prefix n (String c r)) eqn:M.
      * rewrite occurs_app_nonletters; [apply IH; assumption | exact Hw |].
        unfold repl_ok in repl_good. apply andb_true_iff in repl_good as [_ H]. exact H.
      * unfold occurs_ci at 1. fold occurs_ci.
        fold (R O r). rewrite IH by assumption. rewrite orb_false_r.
        destruct (ci_prefix w (String c (R O r))) eqn:P; [|reflexivity].
        assert (E : R O (String c r) = String c (R O r))
          by (unfold R; simpl; rewrite M; reflexivity).
        rewrite <- E in P. apply prefix_of_replaced in P as [P _]; [congruence | exact Hw].
    + rewrite replace_drop. apply IH; assumption.
Qed.
End Replace.

Lemma replace_names_clear (names : list string) :
  forall v parts W,
    names_ok names v = true -> forallb name_ok W = true ->
    (forall p w, In p parts -> In w W -> occurs_ci w p = false) ->
    forall p w, In p (replace_names names v parts) -> In w (W ++ names) ->
      occurs_ci w p = false.
Proof.
  induction names as [|n ns IH]; intros v parts W Hn HW Hp; simpl.
  - rewrite app_nil_r. exact Hp.
  - simpl in Hn. apply andb_true_iff in Hn as [Hn Hns].
    apply andb_true_iff in Hn as [Hn Hr].
    intros p w Hin Hw.
    replace (W ++ n :: ns)%list with ((W ++ [n]) ++ ns)%list in Hw
      by (rewrite <- app_assoc; reflexivity).
    apply (IH (v + 1) (map (regex_replace_ci n (to_string v) O) parts) (W ++ [n])%list Hns)
      with (p := p); [| |exact Hin|exact Hw].
    + rewrite forallb_app, HW. simpl. rewrite Hn. reflexivity.
    + intros p' w' Hp' Hw'. apply in_map_iff in Hp' as [q [<- Hq]].
      apply in_app_or in Hw' as [Hw' | [<- | []]].
      * rewrite forallb_forall in HW.
        apply (replace_keeps_absent n (to_string v) Hr w' q O);
          [apply HW, Hw' | apply (Hp q w' Hq Hw')].
      * apply replace_clears; assumption.
Qed.

Lemma replace_names_id (names : list string) :
  forallb starts_with_letter names = true ->
  forall v parts, (forall p, In p parts -> no_letters p = true) ->
    replace_names names v parts = parts.
Proof.
  induction names as [|w ns IH]; intros Hn v parts Hp; [reflexivity|].
  simpl in Hn. apply andb_true_iff in Hn as [Hw Hns]. simpl.
  rewrite (map_ext_in _ (fun p => p)).
  - rewrite map_id. apply IH; assumption.
  - intros p Hin. apply replace_no_letters; [exact Hw | apply Hp, Hin].
Qed.

Lemma names_of_ok (k : FieldKind) : names_ok (names_of k) (First k) = true.
Proof. destruct k; vm_compute; reflexivity. Qed.

Lemma names_of_name_ok (k : FieldKind) : forallb name_ok (names_of k) = true.
Proof. destruct k; vm_compute; reflexivity. Qed.

(** A loop whose step has been narrowed to zero revisits its start value
    for ever. *)
Lemma step_loop_zero_step (k : FieldKind) (v : Z) :
  0 <= v <= Last k -> Last k < 256 ->
  forall fuel acc, step_loop k fuel v 0 acc = Diverge.
Proof.
  intros Hv HL fuel. induction fuel as [|f IH]; intros acc; [reflexivity|].
  cbn [step_loop]. replace (v <=? Last k) with true by (symmetry; apply Z.leb_le; lia).
  replace ((v + 0) mod 256) with v by (rewrite Z.add_0_r; symmetry; apply Z.mod_small; lia).
  apply IH.
Qed.

Lemma Last_lt_256 (k : FieldKind) : Last k < 256.
Proof. destruct k; simpl; lia. Qed.

(** C3 (the step is narrowed to [uint8_t]): the step of [0/257] becomes
    1, so the seconds get every value of 0 to 59 and the expression is
    valid, where the part denotes only 0; [10/250] adds 10 and then 4,
    the sum 260 having wrapped around past 255; [JAN/2] on months gives
    1, 3, 5, 7, 9 and 11. *)
Theorem step_part_narrowed_uint8 :
  get_step Seconds "0/257" = Ret (Some (0, 1)) /\
  field_of "0/257 * * * * *" Seconds = zrange 0 59 /\
  valid_of "0/257 * * * * *" = true /\
  field_of "10/250 * * * * *" Seconds = [10; 4] /\
  valid_of "10/250 * * * * *" = true /\
  field_of "* * * * JAN/2 *" Months = [1; 3; 5; 7; 9; 11].
Proof.
  repeat split; vm_compute; reflexivity.
Qed.

(** C6 (std::stoi overflows): a plain number or a range bound beyond
    [INT_MAX] makes [std::stoi] throw [std::out_of_range], and the
    exception leaves [create]. *)
Theorem stoi_overflow_escapes_create :
  stoi "99999999999" = Throw out_of_range /\
  process_part Seconds ([], true) "99999999999" = Throw out_of_range /\
  create "99999999999 * * * * *" = Throw out_of_range /\
  create "* * * 1-99999999999 * *" = Throw out_of_range /\
  create "0/99999999999 * * * * *" = Throw out_of_range.
Proof.
  repeat split; vm_compute; reflexivity.
Qed.

(** C10 (a step of 256 is narrowed to 0): [get_step] accepts [0/256]
    with step 0, the loop from 0 never passes [Last] whatever number of
    iterations it is given, and [create] does not return. *)
Theorem step_zero_after_narrowing_diverges :
  get_step Seconds "0/256" = Ret (Some (0, 0)) /\
  (forall fuel acc, step_loop Seconds fuel 0 0 acc = Diverge) /\
  create "0/256 * * * * *" = Diverge.
Proof.
  split; [vm_compute; reflexivity|split].
  - apply step_loop_zero_step; [simpl; lia | apply Last_lt_256].
  - vm_compute. reflexivity.
Qed.

Lemma list_min_In (l : list Z) (m : Z) : list_min l = Some m -> In m l.
Proof.
  revert m. induction l as [|x r IH]; intros m H; simpl in H; [discriminate|].
  destruct (list_min r) as [m'|] eqn:E.
  - injection H as <-. destruct (Z.min_spec x m') as [[_ ->]|[_ ->]];
      [left; reflexivity | right; apply IH; reflexivity].
  - injection H as <-. left; reflexivity.
Qed.

Lemma first_time_from_ge (data : CronData) (lo t : Z) :
  first_time_from data lo = Some t -> lo <= t.
Proof.
  unfold first_time_from. intros H. apply list_min_In, filter_In in H.
  destruct H as [_ H]. apply Z.leb_le in H. exact H.
Qed.

Lemma search_days_ge (data : CronData) (n : nat) :
  forall days lo t, 0 <= lo <= seconds_per_day ->
  search_days data n days lo = Some t -> days * seconds_per_day + lo <= t.
Proof.
  induction n as [|n IH]; intros days lo t Hlo H; simpl in H; [discriminate|].
  destruct (day_allowed data days);
    [destruct (first_time_from data lo) as [t0|] eqn:E|].
  - injection H as <-. apply first_time_from_ge in E. lia.
  - apply IH in H; unfold seconds_per_day in *; lia.
  - apply IH in H; unfold seconds_per_day in *; lia.
Qed.

(** A found occurrence lies strictly after the starting instant. *)
Lemma calculate_from_after (data : CronData) (from t : Z) :
  calculate_from data from = (true, t) -> from < t.
Proof.
  unfold calculate_from. destruct (valid data); [|discriminate].
  destruct (search_days _ _ _ _) as [t'|] eqn:E; [|discriminate].
  intros H. injection H as <-.
  apply search_days_ge in E.
  - pose proof (Z.div_mod (from + 1) seconds_per_day).
    unfold seconds_per_day in *. lia.
  - pose proof (Z.mod_pos_bound (from + 1) seconds_per_day). unfold seconds_per_day in *. lia.
Qed.

Lemma cron_next_after (data : CronData) (from t : Z) :
  cron_next data from = Some t -> from < t.
Proof.
  unfold cron_next. destruct (calculate_from data from) as [[|] t'] eqn:E;
    intros H; [injection H as <-; exact (calculate_from_after _ _ _ E) | discriminate].
Qed.

(** C7: for [0 0 * * * *], valid, the occurrence after 2010-01-01T00:00:00
    is 2010-01-01T01:00:00; and every occurrence found is strictly later
    than the instant it is computed from. *)
Theorem calculate_from_top_of_hour :
  (exists d, create "0 0 * * * *" = Ret d /\ valid d = true /\
     to_calendar_time midnight_2010 =
       {| year := 2010; month := 1; day := 1; hour := 0; min := 0; sec := 0 |} /\
     (exists t, calculate_from d midnight_2010 = (true, t) /\
        to_calendar_time t =
          {| year := 2010; month := 1; day := 1; hour := 1; min := 0; sec := 0 |})) /\
  (forall d from t, calculate_from d from = (true, t) -> from < t).
Proof.
  split.
  - eexists. split; [vm_compute; reflexivity|].
    split; [vm_compute; reflexivity|]. split; [vm_compute; reflexivity|].
    exists (midnight_2010 + 3600). split; vm_compute; reflexivity.
  - exact calculate_from_after.
Qed.

(* ------------------------------------------------------------------ *)
(** ** The task list *)

Section SchedulerProofs.
Variable Schedule : Type.
Variable next_after : Schedule -> Z -> option Z.
Hypothesis next_after_gt : forall sc t t', next_after sc t = Some t' -> t < t'.
Variable reference_time : Z.

Lemma key_le_total (a b : option Z) : key_le a b = false -> key_le b a = true.
Proof.
  destruct a, b; simpl; try discriminate; [|reflexivity].
  rewrite Z.leb_gt, Z.leb_le. lia.
Qed.

Lemma insert_task_perm (t : Task Schedule) (l : list (Task Schedule)) :
  Permutation (insert_task t l) (t :: l).
Proof.
  induction l as [|u us IH]; simpl; [reflexivity|].
  destruct (key_le _ _); [|reflexivity].
  rewrite IH. apply perm_swap.
Qed.

Lemma insert_task_hd (u t : Task Schedule) (l : list (Task Schedule)) :
  HdRel task_le u l -> task_le u t -> HdRel task_le u (insert_task t l).
Proof.
  destruct l as [|v vs]; intros H1 H2; simpl; [constructor; exact H2|].
  destruct (key_le _ _); constructor; [inversion H1; assumption | exact H2].
Qed.

Lemma insert_task_sorted (t : Task Schedule) (l : list (Task Schedule)) :
  Sorted task_le l -> Sorted task_le (insert_task t l).
Proof.
  induction 1 as [|u us Hs IH Hd]; simpl; [repeat constructor|].
  destruct (key_le (task_next u) (task_next t)) eqn:E.
  - constructor; [exact IH | apply insert_task_hd; assumption].
  - constructor; [constructor; assumption | constructor].
    apply key_le_total. exact E.
Qed.

Lemma insert_task_app (t : Task Schedule) (A B : list (Task Schedule)) :
  Forall (fun u => key_le (task_next u) (task_next t) = true) A ->
  insert_task t (A ++ B) = (A ++ insert_task t B)%list.
Proof.
  induction 1 as [|u us Hu _ IH]; [reflexivity|].
  simpl. rewrite Hu, IH. reflexivity.
Qed.

Lemma fire_not_due (t : Task Schedule) : is_due reference_time (fire next_after reference_time t) = false.
Proof.
  unfold is_due, fire. simpl.
  destruct (next_after (task_schedule t) reference_time) as [z|] eqn:E; [|reflexivity].
  apply next_after_gt in E. apply Z.leb_gt. exact E.
Qed.

Lemma due_before_not_due (d t : Task Schedule) :
  is_due reference_time d = true -> is_due reference_time t = false -> key_le (task_next d) (task_next t) = true.
Proof.
  unfold is_due. destruct (task_next d), (task_next t); intros H1 H2; simpl in *;
    try discriminate; [|reflexivity].
  rewrite Z.leb_le in *. rewrite Z.leb_gt in H2. lia.
Qed.

Lemma not_due_after (t u : Task Schedule) :
  is_due reference_time t = false -> task_le t u -> is_due reference_time u = false.
Proof.
  unfold task_le, is_due. destruct (task_next t), (task_next u); intros H1 H2; simpl in *;
    try discriminate; try reflexivity.
  rewrite Z.leb_gt in *. rewrite Z.leb_le in H2. lia.
Qed.

Lemma key_le_trans (a b c : option Z) :
  key_le a b = true -> key_le b c = true -> key_le a c = true.
Proof.
  destruct a, b, c; simpl; try discriminate; try reflexivity.
  rewrite !Z.leb_le. lia.
Qed.

Lemma task_le_trans : RelationClasses.Transitive (@task_le Schedule).
Proof. intros x y z. unfold task_le. apply key_le_trans. Qed.

(** A sorted list is its due tasks followed by the others. *)
Lemma sorted_due_prefix (ts : list (Task Schedule)) :
  StronglySorted task_le ts -> ts = (filter (is_due reference_time) ts ++ filter (fun t => negb (is_due reference_time t)) ts)%list.
Proof.
  induction 1 as [|t r Hs IH Hall]; [reflexivity|].
  simpl. destruct (is_due reference_time t) eqn:E; simpl.
  - f_equal. exact IH.
  - assert (Hr : forall u, In u r -> is_due reference_time u = false).
    { intros u Hu. eapply not_due_after; [exact E|].
      rewrite Forall_forall in Hall. apply Hall, Hu. }
    assert (F : filter (is_due reference_time) r = []).
    { clear IH Hs Hall. induction r as [|u us IHr]; [reflexivity|].
      simpl. rewrite (Hr u (or_introl eq_refl)).
      apply IHr. intros v Hv. apply Hr. right. exact Hv. }
    rewrite F in IH |- *. simpl in IH |- *. f_equal. exact IH.
Qed.

Lemma strongly_sorted_filter (f : Task Schedule -> bool) (ts : list (Task Schedule)) :
  StronglySorted task_le ts -> StronglySorted task_le (filter f ts).
Proof.
  induction 1 as [|t r Hs IH Hall]; [constructor|].
  simpl. destruct (f t); [|exact IH].
  constructor; [exact IH|]. rewrite Forall_forall in *.
  intros u Hu. apply filter_In in Hu. apply Hall, Hu.
Qed.

Lemma filter_not_due (ts : list (Task Schedule)) :
  Forall (fun t => is_due reference_time t = false)
    (filter (fun t => negb (is_due reference_time t)) ts).
Proof.
  rewrite Forall_forall. intros t Ht. apply filter_In in Ht.
  destruct Ht as [_ Ht]. apply negb_true_iff in Ht. exact Ht.
Qed.

Lemma filter_due (ts : list (Task Schedule)) :
  Forall (fun t => is_due reference_time t = true) (filter (is_due reference_time) ts).
Proof.
  rewrite Forall_forall. intros t Ht. apply filter_In in Ht. apply Ht.
Qed.

Lemma NoDup_map_filter (f : Task Schedule -> bool) (ts : list (Task Schedule)) :
  NoDup (map task_id ts) -> NoDup (map task_id (filter f ts)).
Proof.
  induction ts as [|t r IH]; simpl; intros H; [constructor|].
  inversion H as [|x l Hn Hd]; subst.
  destruct (f t); simpl; [|apply IH, Hd].
  constructor; [|apply IH, Hd].
  intros Hin. apply Hn. apply in_map_iff in Hin. destruct Hin as [u [Hu Hin]].
  apply filter_In in Hin. rewrite <- Hu. apply in_map, Hin.
Qed.

(** The loop fires the due prefix [D], one task after the other, and
    leaves the others, with the fired tasks put back in order. *)
Lemma execute_loop_due (D : list (Task Schedule)) :
  forall (N : list (Task Schedule)) (fuel : nat) (log : list nat),
  Forall (fun t => is_due reference_time t = true) D ->
  Forall (fun t => is_due reference_time t = false) N ->
  Sorted task_le N ->
  (List.length D <= fuel)%nat ->
  exists N',
    execute_loop next_after fuel reference_time (D ++ N) log
      = (N', log ++ map task_id D)%list /\
    Sorted task_le N' /\
    Forall (fun t => is_due reference_time t = false) N' /\
    Permutation N' (map (fire next_after reference_time) D ++ N).
Proof.
  induction D as [|d D' IH]; intros N fuel log HD HN HS Hf.
  - exists N. rewrite !app_nil_r. split; [|split; [exact HS | split; [exact HN | reflexivity]]].
    destruct fuel as [|f]; [reflexivity|]. destruct N as [|u us]; [reflexivity|].
    simpl. inversion HN as [|x l Hu _]; subst. rewrite Hu. reflexivity.
  - destruct fuel as [|f]; simpl in Hf; [lia|].
    inversion HD as [|x l Hd HD']; subst.
    cbn [execute_loop app]. rewrite Hd.
    rewrite insert_task_app.
    2:{ rewrite Forall_forall in *. intros u Hu.
        apply due_before_not_due; [apply HD', Hu | apply fire_not_due]. }
    destruct (IH (insert_task (fire next_after reference_time d) N) f
                (log ++ [task_id d])%list HD') as [N' [E [S' [F' P']]]].
    + rewrite Forall_forall in *. intros u Hu.
      apply (Permutation_in _ (insert_task_perm _ _)) in Hu.
      destruct Hu as [<-|Hu]; [apply fire_not_due | apply HN, Hu].
    + apply insert_task_sorted, HS.
    + lia.
    + exists N'. split; [rewrite E, <- app_assoc; reflexivity|].
      split; [exact S'|]. split; [exact F'|].
      rewrite P', insert_task_perm. simpl. symmetry. apply Permutation_middle.
Qed.

(** C8: on a list of tasks ordered by next occurrence, with distinct ids,
    [execute_expired_tasks] runs the callbacks of exactly the tasks whose
    next occurrence is at most [reference_time], each once and in
    ascending order of next occurrence, and returns their number; the
    fired tasks get the next occurrence strictly after [reference_time],
    the others are kept; the list stays ordered, no task in it is due
    any more, and a second call at the same time fires nothing. *)
Theorem execute_expired_tasks_fires_due (ts : list (Task Schedule)) :
  Sorted task_le ts -> NoDup (map task_id ts) ->
  let '(ts', fired, n) := execute_expired_tasks next_after reference_time ts in
  fired = map task_id (filter (is_due reference_time) ts) /\
  Sorted task_le (filter (is_due reference_time) ts) /\
  NoDup fired /\
  n = List.length fired /\
  Permutation ts'
    (map (fire next_after reference_time) (filter (is_due reference_time) ts)
     ++ filter (fun t => negb (is_due reference_time t)) ts) /\
  (forall t z, In t ts' -> task_next t = Some z -> reference_time < z) /\
  Sorted task_le ts' /\
  snd (execute_expired_tasks next_after reference_time ts') = 0%nat.
Proof.
  intros HS HN.
  assert (SS : StronglySorted task_le ts) by (apply Sorted_StronglySorted; [apply task_le_trans | exact HS]).
  unfold execute_expired_tasks.
  destruct (execute_loop_due (filter (is_due reference_time) ts)
              (filter (fun t => negb (is_due reference_time t)) ts)
              (List.length ts) [] (filter_due ts) (filter_not_due ts))
    as [N' [E [S' [F' P']]]].
  - apply StronglySorted_Sorted, strongly_sorted_filter, SS.
  - rewrite (sorted_due_prefix ts SS) at 2. rewrite length_app. lia.
  - rewrite <- (sorted_due_prefix ts SS) in E. rewrite E. simpl.
    split; [reflexivity|].
    split; [apply StronglySorted_Sorted, strongly_sorted_filter, SS|].
    split; [apply NoDup_map_filter, HN|].
    split; [reflexivity|].
    split; [exact P'|].
    split.
    + intros t z Ht Hz. rewrite Forall_forall in F'. apply F' in Ht.
      unfold is_due in Ht. rewrite Hz in Ht. apply Z.leb_gt, Ht.
    + split; [exact S'|].
      destruct (execute_loop_due [] N' (List.length N') [] (Forall_nil _) F' S')
        as [N'' [E' _]]; [simpl; lia|].
      simpl app in E'. rewrite E'. reflexivity.
Qed.
End SchedulerProofs.

(** The scenario of the tests: the tasks added at midnight, due after 3
    and 5 seconds; at 3 seconds only the first fires, a second call at the
    same time fires nothing, and at 5 seconds only the second fires. *)
Example example_tasks_scenario :
  add_schedule cron_next 1 "5s" (sched_of "0/5 * * * * *") midnight_2010
    (add_schedule cron_next 0 "3s" (sched_of "0/3 * * * * *") midnight_2010 [])
    = example_tasks /\
  let '(ts1, f1, n1) := execute_expired_tasks cron_next (midnight_2010 + 3) example_tasks in
  f1 = [0%nat] /\ n1 = 1%nat /\
  snd (execute_expired_tasks cron_next (midnight_2010 + 3) ts1) = 0%nat /\
  (let '(_, f2, n2) := execute_expired_tasks cron_next (midnight_2010 + 5) ts1 in
   f2 = [1%nat] /\ n2 = 1%nat).
Proof.
  split; [vm_compute; reflexivity|].
  vm_compute. repeat split.
Qed.

(* ------------------------------------------------------------------ *)
(** ** Instances of the claims' theorems *)


Lemma range_part_semantics_witness :
  exists S', process_part Hours ([], true) "20-5" = Ret (S', true) /\ In 22 S' /\ ~ In 10 S'.
Proof.
  assert (Hs : set_inb Hours (fst ([] : set, true))) by (intros x []).
  pose proof (range_part_semantics Hours "20" "5" ([], true) eq_refl eq_refl Hs) as H.
  cbv zeta in H. change (digits_value "20" 0) with 20 in H.
  change (digits_value "5" 0) with 5 in H.
  destruct H as [H _]. destruct H as [S' [E I]]; [unfold inb; simpl; lia|].
  exists S'. split; [exact E|]. split.
  - apply I. right. right. simpl. lia.
  - intros Hin. apply I in Hin. simpl in Hin. lia.
Defined.

Lemma create_star_full_range_witness :
  List.length (get_field Hours (sched_of "* * * * * *")) = 24%nat.
Proof.
  destruct (create_star_full_range "* * * * * *" (sched_of "* * * * * *") Hours)
    as [_ [_ [E _]]]; [vm_compute; reflexivity | vm_compute; reflexivity | reflexivity |].
  exact E.
Defined.

Lemma create_fields_within_bounds_witness :
  First Hours <= 21 <= Last Hours.
Proof.
  apply (create_fields_within_bounds "* * 20-5 * * *" (sched_of "* * 20-5 * * *"));
    vm_compute; [reflexivity | tauto].
Defined.

Lemma calculate_from_top_of_hour_witness : midnight_2010 < midnight_2010 + 3600.
Proof.
  apply (proj2 calculate_from_top_of_hour (sched_of "0 0 * * * *")).
  vm_compute. reflexivity.
Defined.

Lemma execute_expired_tasks_fires_due_witness :
  Sorted task_le example_tasks /\ NoDup (map task_id example_tasks) /\
  snd (execute_expired_tasks cron_next (midnight_2010 + 3)
         (fst (fst (execute_expired_tasks cron_next (midnight_2010 + 3) example_tasks))))
    = 0%nat.
Proof.
  assert (HS : Sorted task_le example_tasks).
  { apply Sorted_cons; [apply Sorted_cons; [apply Sorted_nil | apply HdRel_nil]|].
    apply HdRel_cons. reflexivity. }
  assert (HN : NoDup (map task_id example_tasks)).
  { change (map task_id example_tasks) with [0%nat; 1%nat].
    constructor; [intros [H|[]]; discriminate | constructor; [intros [] | constructor]]. }
  split; [exact HS|]. split; [exact HN|].
  pose proof (execute_expired_tasks_fires_due CronData cron_next cron_next_after
                (midnight_2010 + 3) example_tasks HS HN) as H.
  destruct (execute_expired_tasks cron_next (midnight_2010 + 3) example_tasks)
    as [[ts' fired] n].
  destruct H as (_ & _ & _ & _ & _ & _ & _ & H). exact H.
Defined.

(* ------------------------------------------------------------------ *)
(** ** Sets: add_number, add_full_range *)

(** add_number, on a set within the bounds of its field: it adds the
    number exactly when the number is within the bounds, never adds a
    duplicate and keeps the set within the bounds; it reports success when
    the number is within the bounds or when its [static_cast<T>] (its low
    8 bits) is already in the set, so 256 passes once 0 is there. *)
Theorem add_number_adds_in_bounds (k : FieldKind) (s : set) (n : Z) :
  set_inb k s -> NoDup s ->
  (snd (add_number k s n) = true <-> First k <= n <= Last k \/ In (n mod 256) s) /\
  (forall x, In x (fst (add_number k s n)) <-> In x s \/ (x = n /\ First k <= n <= Last k)) /\
  NoDup (fst (add_number k s n)) /\
  set_inb k (fst (add_number k s n)).
Proof.
  intros Hi Hd. split; [|split; [|split]].
  - rewrite add_number_snd, orb_true_iff, inb_b_inb, find_In. unfold to_T, inb. tauto.
  - intros x. apply add_number_In.
  - apply add_number_NoDup, Hd.
  - apply add_number_inb, Hi.
Qed.

Lemma add_list_present (k : FieldKind) :
  forall vs (acc : set * bool), (forall x, In x vs -> In x (fst acc) /\ inb k x) ->
    add_list k acc vs = acc.
Proof.
  induction vs as [|v vs IH]; intros acc H; [reflexivity|].
  destruct (H v (or_introl eq_refl)) as [Hv Bv].
  assert (F : find (fst acc) (to_T v) = true)
    by (rewrite (to_T_inb k v Bv); apply find_In, Hv).
  assert (A : add_acc k acc v = acc).
  { unfold add_acc, add_number. rewrite F. simpl. rewrite andb_true_r.
    destruct acc; reflexivity. }
  change (add_list k (add_acc k acc v) vs = acc). rewrite A.
  apply IH. intros x Hx. apply H. right. exact Hx.
Qed.

(** add_full_range, on a set within the bounds of its field: the result
    holds the set and every value of [First, Last], without duplicates
    when the set had none, and a second call changes nothing. *)
Theorem add_full_range_union_idem (k : FieldKind) (s : set) :
  set_inb k s ->
  (forall x, In x (add_full_range k s) <-> In x s \/ First k <= x <= Last k) /\
  (NoDup s -> NoDup (add_full_range k s)) /\
  set_inb k (add_full_range k s) /\
  add_full_range k (add_full_range k s) = add_full_range k s.
Proof.
  intros Hi.
  assert (E : forall b, add_full_range k s = fst (add_list k (s, b) (zrange (First k) (Last k))))
    by (intros b; rewrite add_full_range_add_list; reflexivity).
  assert (M : forall x, In x (add_full_range k s) <-> In x s \/ First k <= x <= Last k).
  { intros x. rewrite (E true), add_list_In by exact Hi. simpl.
    rewrite zrange_In. unfold inb. tauto. }
  split; [exact M|]. split; [|split].
  - intros Hd. rewrite (E true). apply add_list_NoDup, Hd.
  - intros x Hx. apply M in Hx as [Hx | Hx]; [apply Hi, Hx | exact Hx].
  - pose proof (add_full_range_add_list k (add_full_range k s, true)) as A.
    simpl in A. rewrite add_list_present in A.
    + injection A as A. symmetry. exact A.
    + intros x Hx. apply zrange_In in Hx. split; [apply M; right; exact Hx | exact Hx].
Qed.

(* ------------------------------------------------------------------ *)
(** ** process_parts *)

Lemma process_parts_from_In (k : FieldKind) :
  forall parts acc acc', process_parts_from k parts acc = Ret acc' -> acc_inv k acc ->
  forall x, In x (fst acc') <->
    In x (fst acc) \/
    (First k <= x <= Last k /\
     exists p vs, In p parts /\ part_values k p = Ret (Some vs) /\ In x vs).
Proof.
  induction parts as [|p ps IH]; intros acc acc' Hr Hi x; simpl in Hr.
  - injection Hr as <-. split; [tauto|]. intros [H | [_ [q [vs [[] _]]]]]. exact H.
  - rewrite process_part_values in Hr.
    destruct (part_values k p) as [[vs|]| |] eqn:Pv; simpl in Hr; try discriminate.
    + rewrite (IH _ _ Hr (add_list_inb k vs acc Hi) x), add_list_In by exact Hi.
      split.
      * intros [[H | [Hv Hb]] | [Hb [q [ws [Hq [Hw Hx]]]]]]; [left; exact H| |].
        -- right. split; [exact Hb|]. exists p, vs. split; [left; reflexivity | tauto].
        -- right. split; [exact Hb|]. exists q, ws. split; [right; exact Hq | tauto].
      * intros [H | [Hb [q [ws [[<- | Hq] [Hw Hx]]]]]]; [left; left; exact H| |].
        -- rewrite Pv in Hw. injection Hw as <-. left; right. split; [exact Hx | exact Hb].
        -- right. split; [exact Hb|]. exists q, ws. tauto.
    + rewrite (IH _ _ Hr Hi x). simpl. split.
      * intros [H | [Hb [q [ws [Hq [Hw Hx]]]]]]; [left; exact H|].
        right. split; [exact Hb|]. exists q, ws. split; [right; exact Hq | tauto].
      * intros [H | [Hb [q [ws [[<- | Hq] [Hw Hx]]]]]]; [left; exact H| |].
        -- rewrite Pv in Hw. discriminate.
        -- right. split; [exact Hb|]. exists q, ws. tauto.
Qed.

Lemma process_parts_from_NoDup (k : FieldKind) :
  forall parts acc acc', process_parts_from k parts acc = Ret acc' ->
  NoDup (fst acc) -> NoDup (fst acc').
Proof.
  induction parts as [|p ps IH]; intros acc acc' Hr Hd; simpl in Hr.
  - injection Hr as <-. exact Hd.
  - rewrite process_part_values in Hr.
    destruct (part_values k p) as [[vs|]| |]; simpl in Hr; try discriminate;
      apply (IH _ _ Hr); [apply add_list_NoDup, Hd | exact Hd].
Qed.

Lemma process_parts_from_returns (k : FieldKind) :
  forall parts (acc : set * bool),
  (exists acc', process_parts_from k parts acc = Ret acc') <->
  Forall (fun p => exists o, part_values k p = Ret o) parts.
Proof.
  induction parts as [|p ps IH]; intros acc; simpl.
  - split; [constructor | intros _; exists acc; reflexivity].
  - rewrite process_part_values.
    destruct (part_values k p) as [o| |] eqn:Pv; simpl.
    + rewrite IH. split; [intros H; constructor; [exists o; exact Pv | exact H]|].
      intros H. inversion H. assumption.
    + split; [intros [a H]; discriminate|]. intros H. inversion H as [|x l [o Ho] _].
      rewrite Pv in Ho. discriminate.
    + split; [intros [a H]; discriminate|]. intros H. inversion H as [|x l [o Ho] _].
      rewrite Pv in Ho. discriminate.
Qed.

Lemma forallb_perm {A} (f : A -> bool) (l l' : list A) :
  Permutation l l' -> forallb f l = forallb f l'.
Proof.
  intros P. destruct (forallb f l) eqn:E1, (forallb f l') eqn:E2; try reflexivity.
  - rewrite forallb_forall in E1. rewrite <- E2. symmetry. apply forallb_forall.
    intros x Hx. apply E1. apply (Permutation_in x (Permutation_sym P)), Hx.
  - rewrite forallb_forall in E2. rewrite <- E1. apply forallb_forall.
    intros x Hx. apply E2. apply (Permutation_in x P), Hx.
Qed.


(* ------------------------------------------------------------------ *)
(** ** get_range, get_step *)

Lemma break_at_some (sep : ascii) :
  forall s a b, break_at sep s = Some (a, b) -> s = a ++ String sep b.
Proof.
  induction s as [|c r IH]; intros a b H; simpl in H; [discriminate|].
  destruct (Ascii.eqb c sep) eqn:E.
  - apply Ascii.eqb_eq in E. subst. injection H as <- <-. reflexivity.
  - destruct (break_at sep r) as [[x y]|] eqn:B; [|discriminate].
    injection H as <- <-. simpl. f_equal. apply IH. reflexivity.
Qed.

Lemma match_pair_some (sep : ascii) (s a b : string) :
  match_pair sep s = Some (a, b) ->
  s = a ++ String sep b /\ is_number a = true /\ is_number b = true.
Proof.
  unfold match_pair. destruct (break_at sep s) as [[x y]|] eqn:B; [|discriminate].
  destruct (is_number x && is_number y) eqn:N; [|discriminate].
  intros H. injection H as <- <-. apply andb_true_iff in N.
  split; [apply break_at_some, B | exact N].
Qed.

Lemma stoi_throw (a : string) (e : exn) : stoi a = Throw e -> INT_MAX < digits_value a 0.
Proof.
  unfold stoi. destruct (Z.leb_spec (digits_value a 0) INT_MAX); [discriminate|].
  intros _. exact H.
Qed.

Lemma stoi_not_diverge (a : string) : stoi a <> Diverge.
Proof. unfold stoi. destruct (_ <=? _); discriminate. Qed.

Lemma get_range_some (k : FieldKind) (s : string) (low high : Z) :
  get_range k s = Ret (Some (low, high)) ->
  exists a b, s = a ++ String "-" b /\ is_number a = true /\ is_number b = true /\
    low = digits_value a 0 /\ high = digits_value b 0 /\
    First k <= low <= Last k /\ First k <= high <= Last k.
Proof.
  unfold get_range.
  destruct (match_pair "-" s) as [[a b]|] eqn:M; [|discriminate].
  apply match_pair_some in M as [-> [Ha Hb]].
  destruct (stoi a) as [l| |] eqn:Sa; cbv [bind]; try discriminate.
  destruct (stoi b) as [h| |] eqn:Sb; cbv [bind]; try discriminate.
  destruct (is_within_limits k l h) eqn:W; [|discriminate].
  intros H. injection H as <- <-. apply stoi_ret in Sa, Sb.
  apply within_limits_iff in W. unfold inb in W.
  exists a, b. repeat split; try assumption; lia.
Qed.

Lemma get_range_joined (k : FieldKind) (a b : string) :
  is_number a = true -> is_number b = true ->
  First k <= digits_value a 0 <= Last k -> First k <= digits_value b 0 <= Last k ->
  get_range k (a ++ String "-" b) = Ret (Some (digits_value a 0, digits_value b 0)).
Proof.
  intros Ha Hb Ba Bb.
  destruct (match_pair_joined "-" "/" a b Ha Hb) as [M _]; try reflexivity.
  unfold get_range. rewrite M.
  rewrite !stoi_small by (unfold INT_MAX; destruct k; simpl in *; lia).
  cbv [bind].
  assert (W : is_within_limits k (digits_value a 0) (digits_value b 0) = true)
    by (apply within_limits_iff; unfold inb; tauto).
  rewrite W. reflexivity.
Qed.

Lemma get_range_throw (k : FieldKind) (s : string) (e : exn) :
  get_range k s = Throw e ->
  exists a b, s = a ++ String "-" b /\ is_number a = true /\ is_number b = true /\
    (INT_MAX < digits_value a 0 \/ INT_MAX < digits_value b 0).
Proof.
  intros H. unfold get_range in H.
  destruct (match_pair "-" s) as [[a b]|] eqn:M; [|discriminate].
  apply match_pair_some in M as [-> [Ha Hb]].
  exists a, b. split; [reflexivity|]. split; [exact Ha|]. split; [exact Hb|].
  destruct (stoi a) as [l| e'|] eqn:Sa; cbv [bind] in H; [| |discriminate].
  + destruct (stoi b) as [h| e''|] eqn:Sb; cbv [bind] in H; try discriminate.
    right. exact (stoi_throw _ _ Sb).
  + left. exact (stoi_throw _ _ Sa).
Qed.

Lemma get_range_not_diverge (k : FieldKind) (s : string) : get_range k s <> Diverge.
Proof.
  unfold get_range. destruct (match_pair "-" s) as [[a b]|]; [|discriminate].
  destruct (stoi a) as [l| |] eqn:Sa; cbv [bind]; try discriminate;
    [| intros _; exact (stoi_not_diverge _ Sa)].
  destruct (stoi b) as [h| |] eqn:Sb; cbv [bind]; try discriminate.
  intros _. exact (stoi_not_diverge _ Sb).
Qed.

Lemma get_step_some (k : FieldKind) (s : string) (start step : Z) :
  get_step k s = Ret (Some (start, step)) ->
  exists a b, s = a ++ String "/" b /\ is_number a = true /\ is_number b = true /\
    start = digits_value a 0 /\ First k <= start <= Last k /\
    0 < digits_value b 0 <= INT_MAX /\ step = digits_value b 0 mod 256.
Proof.
  unfold get_step.
  destruct (match_pair "/" s) as [[a b]|] eqn:M; [|discriminate].
  apply match_pair_some in M as [-> [Ha Hb]].
  destruct (stoi a) as [l| |] eqn:Sa; cbv [bind]; try discriminate.
  destruct (stoi b) as [h| |] eqn:Sb; cbv [bind]; try discriminate.
  destruct (is_within_limits k l l && (0 <? h)) eqn:W; [|discriminate].
  intros H. injection H as <- <-.
  apply andb_true_iff in W as [W P]. apply within_limits_iff in W. unfold inb in W.
  apply Z.ltb_lt in P.
  assert (Hh : h <= INT_MAX) by (unfold stoi in Sb; destruct (_ <=? _) eqn:E;
    [injection Sb as <-; apply Z.leb_le, E | discriminate]).
  apply stoi_ret in Sa, Sb. subst l h.
  assert (M0 : digits_value a 0 mod 256 = digits_value a 0)
    by (apply Z.mod_small; destruct k; simpl in W; lia).
  rewrite M0. exists a, b. repeat split; try assumption; lia.
Qed.

Lemma get_step_joined (k : FieldKind) (a b : string) :
  is_number a = true -> is_number b = true ->
  First k <= digits_value a 0 <= Last k -> 0 < digits_value b 0 <= INT_MAX ->
  get_step k (a ++ String "/" b) = Ret (Some (digits_value a 0, digits_value b 0 mod 256)).
Proof.
  intros Ha Hb Ba Bb.
  destruct (match_pair_joined "/" "-" a b Ha Hb) as [M _]; try reflexivity.
  unfold get_step. rewrite M.
  rewrite (stoi_small a) by (unfold INT_MAX; destruct k; simpl in *; lia).
  rewrite (stoi_small b) by lia.
  cbv [bind].
  assert (W : is_within_limits k (digits_value a 0) (digits_value a 0) = true)
    by (apply within_limits_iff; unfold inb; tauto).
  assert (P : (0 <? digits_value b 0) = true) by (apply Z.ltb_lt; lia).
  rewrite W, P. simpl.
  rewrite (Z.mod_small (digits_value a 0)) by (destruct k; simpl in Ba; lia).
  reflexivity.
Qed.

Lemma get_step_throw (k : FieldKind) (s : string) (e : exn) :
  get_step k s = Throw e ->
  exists a b, s = a ++ String "/" b /\ is_number a = true /\ is_number b = true /\
    (INT_MAX < digits_value a 0 \/ INT_MAX < digits_value b 0).
Proof.
  intros H. unfold get_step in H.
  destruct (match_pair "/" s) as [[a b]|] eqn:M; [|discriminate].
  apply match_pair_some in M as [-> [Ha Hb]].
  exists a, b. split; [reflexivity|]. split; [exact Ha|]. split; [exact Hb|].
  destruct (stoi a) as [l| e'|] eqn:Sa; cbv [bind] in H; [| |discriminate].
  + destruct (stoi b) as [h| e''|] eqn:Sb; cbv [bind] in H; try discriminate.
    right. exact (stoi_throw _ _ Sb).
  + left. exact (stoi_throw _ _ Sa).
Qed.

Lemma get_step_not_diverge (k : FieldKind) (s : string) : get_step k s <> Diverge.
Proof.
  unfold get_step. destruct (match_pair "/" s) as [[a b]|]; [|discriminate].
  destruct (stoi a) as [l| |] eqn:Sa; cbv [bind]; try discriminate;
    [| intros _; exact (stoi_not_diverge _ Sa)].
  destruct (stoi b) as [h| |] eqn:Sb; cbv [bind]; try discriminate.
  intros _. exact (stoi_not_diverge _ Sb).
Qed.

(** get_range: it accepts exactly two numerals joined by [-] whose
    values both lie within the bounds of the field, and returns those
    values; it throws only when one of the two numerals exceeds
    [INT_MAX], and it always returns or throws. *)
Theorem get_range_result (k : FieldKind) (s : string) :
  (forall low high, get_range k s = Ret (Some (low, high)) ->
     exists a b, s = a ++ String "-" b /\ is_number a = true /\ is_number b = true /\
       low = digits_value a 0 /\ high = digits_value b 0 /\
       First k <= low <= Last k /\ First k <= high <= Last k) /\
  (forall a b, s = a ++ String "-" b -> is_number a = true -> is_number b = true ->
     First k <= digits_value a 0 <= Last k -> First k <= digits_value b 0 <= Last k ->
     get_range k s = Ret (Some (digits_value a 0, digits_value b 0))) /\
  (forall e, get_range k s = Throw e ->
     exists a b, s = a ++ String "-" b /\ is_number a = true /\ is_number b = true /\
       (INT_MAX < digits_value a 0 \/ INT_MAX < digits_value b 0)) /\
  get_range k s <> Diverge.
Proof.
  split; [|split; [|split]].
  - intros low high. apply get_range_some.
  - intros a b ->. apply get_range_joined.
  - intros e. apply get_range_throw.
  - apply get_range_not_diverge.
Qed.

(** get_step: it accepts exactly two numerals joined by [/] whose start
    lies within the bounds of the field and whose step is positive; it
    returns the start unchanged and the step reduced modulo 256 (the
    [uint8_t] narrowing), so a step that is a multiple of 256 comes back
    as 0; it throws only when a numeral exceeds [INT_MAX], and it always
    returns or throws. *)
Theorem get_step_result (k : FieldKind) (s : string) :
  (forall start step, get_step k s = Ret (Some (start, step)) ->
     exists a b, s = a ++ String "/" b /\ is_number a = true /\ is_number b = true /\
       start = digits_value a 0 /\ First k <= start <= Last k /\
       0 < digits_value b 0 <= INT_MAX /\ step = digits_value b 0 mod 256) /\
  (forall a b, s = a ++ String "/" b -> is_number a = true -> is_number b = true ->
     First k <= digits_value a 0 <= Last k -> 0 < digits_value b 0 <= INT_MAX ->
     get_step k s = Ret (Some (digits_value a 0, digits_value b 0 mod 256))) /\
  (forall e, get_step k s = Throw e ->
     exists a b, s = a ++ String "/" b /\ is_number a = true /\ is_number b = true /\
       (INT_MAX < digits_value a 0 \/ INT_MAX < digits_value b 0)) /\
  get_step k s <> Diverge.
Proof.
  split; [|split; [|split]].
  - intros start step. apply get_step_some.
  - intros a b ->. apply get_step_joined.
  - intros e. apply get_step_throw.
  - apply get_step_not_diverge.
Qed.

(* ------------------------------------------------------------------ *)
(** ** The step loop, divergence and exceptions of process_parts *)

Lemma step_values_nowrap (k : FieldKind) (step : Z) :
  1 <= step -> Last k + step < 256 ->
  forall fuel v, 0 <= v -> (Z.to_nat (Last k + 1 - v) < fuel)%nat ->
  exists vs, step_values k fuel v step = Ret vs /\
    forall x, In x vs <-> v <= x <= Last k /\ (x - v) mod step = 0.
Proof.
  intros Hs Hl. induction fuel as [|f IH]; intros v Hv Hf; [lia|].
  cbn [step_values]. destruct (Z.leb_spec v (Last k)) as [Hle|Hgt].
  - rewrite (Z.mod_small (v + step)) by lia.
    destruct (IH (v + step)) as [vs [E M]]; [lia | lia |].
    rewrite E. cbv [bind]. exists (v :: vs). split; [reflexivity|].
    intros x. simpl. rewrite M. split.
    + intros [<- | [[H1 H2] H3]].
      * rewrite Z.sub_diag, Z.mod_0_l by lia. lia.
      * split; [lia|].
        replace (x - v) with ((x - (v + step)) + 1 * step) by ring.
        rewrite Z.mod_add by lia. exact H3.
    + intros [[H1 H2] H3]. destruct (Z.eq_dec v x) as [E'|Hne]; [left; exact E'|]. right.
      pose proof (Z.div_mod (x - v) step ltac:(lia)) as D. rewrite H3 in D.
      assert (Q : 1 <= (x - v) / step) by nia.
      split; [nia|].
      replace (x - (v + step)) with ((x - v) + (-1) * step) by ring.
      rewrite Z.mod_add by lia. exact H3.
  - exists []. split; [reflexivity|]. intros x. simpl. lia.
Qed.

Lemma step_loop_ends_true : step_loop_ends = true.
Proof. vm_compute. reflexivity. Qed.

Lemma step_values_return (k : FieldKind) (v step : Z) :
  First k <= v <= Last k -> 1 <= step <= 255 -> step_values k step_fuel v step <> Diverge.
Proof.
  intros Hv Hs. pose proof step_loop_ends_true as C. unfold step_loop_ends in C.
  rewrite forallb_forall in C. specialize (C k ltac:(destruct k; simpl; tauto)).
  rewrite forallb_forall in C. specialize (C v (proj2 (zrange_In _ _ _) Hv)).
  rewrite forallb_forall in C. specialize (C step (proj2 (zrange_In _ _ _) Hs)).
  destruct (step_values k step_fuel v step); discriminate.
Qed.

Lemma slash_not_range (k : FieldKind) (a b : string) :
  is_number a = true -> is_number b = true ->
  get_range k (a ++ String "/" b) = Ret None /\
  is_number (a ++ String "/" b) = false /\ a ++ String "/" b <> "*".
Proof.
  intros Ha Hb.
  destruct (match_pair_joined "/" "-" a b Ha Hb) as [_ [M2 [M3 M4]]]; try reflexivity.
  unfold get_range. rewrite M2. auto.
Qed.

(** The part [a/b] of two numerals, with a start within the bounds and a
    positive step that cannot carry the [uint8_t] counter past 255 (Last
    plus the step stays below 256): the part adds exactly the values
    start, start+step, ... up to Last, and is accepted. *)
Theorem step_part_no_wrap (k : FieldKind) (a b : string) (acc : set * bool) :
  is_number a = true -> is_number b = true -> set_inb k (fst acc) ->
  First k <= digits_value a 0 <= Last k ->
  0 < digits_value b 0 -> Last k + digits_value b 0 < 256 ->
  exists S', process_part k acc (a ++ "/" ++ b) = Ret (S', snd acc) /\
    forall x, In x S' <-> In x (fst acc) \/
      (digits_value a 0 <= x <= Last k /\
       (x - digits_value a 0) mod digits_value b 0 = 0).
Proof.
  intros Ha Hb Hi Ba Pb Lb.
  change ("/" ++ b) with (String "/" b).
  destruct (slash_not_range k a b Ha Hb) as [G [N S]].
  set (va := digits_value a 0) in *. set (vb := digits_value b 0) in *.
  assert (F : 0 <= First k) by (destruct k; simpl; lia).
  destruct (step_values_nowrap k vb ltac:(lia) Lb step_fuel va ltac:(lia))
    as [vs [E M]]; [unfold step_fuel; lia|].
  rewrite process_part_values. unfold part_values.
  destruct (string_dec _ "*") as [X|_]; [contradiction|]. rewrite N, G. cbv [bind].
  rewrite get_step_joined by (auto; unfold INT_MAX; lia).
  fold va vb. rewrite (Z.mod_small vb) by lia. rewrite E. cbv [bind].
  exists (fst (add_list k acc vs)). split.
  - f_equal. rewrite (surjective_pairing (add_list k acc vs)) at 1. f_equal.
    apply add_list_snd. apply forallb_forall. intros x Hx. apply inb_b_inb.
    apply M in Hx. unfold inb. lia.
  - intros x. rewrite add_list_In by exact Hi. rewrite M. unfold inb. split.
    + intros [H | [H _]]; [left; exact H | right; exact H].
    + intros [H | H]; [left; exact H | right; split; [exact H | lia]].
Qed.

Lemma process_parts_from_stuck (k : FieldKind) :
  forall parts acc (o : outcome (set * bool)),
  process_parts_from k parts acc = o -> (forall a, o <> Ret a) ->
  exists p acc', In p parts /\ process_part k acc' p = o.
Proof.
  induction parts as [|p ps IH]; intros acc o H Hn; simpl in H.
  - subst o. exfalso. exact (Hn acc eq_refl).
  - destruct (process_part k acc p) as [acc1| e |] eqn:P; cbv [bind] in H.
    + destruct (IH acc1 o H Hn) as [q [acc' [Hq Hp]]].
      exists q, acc'. split; [right; exact Hq | exact Hp].
    + exists p, acc. split; [left; reflexivity | rewrite P; exact H].
    + exists p, acc. split; [left; reflexivity | rewrite P; exact H].
Qed.

Lemma process_part_diverge_shape (k : FieldKind) (acc : set * bool) (p : string) :
  process_part k acc p = Diverge ->
  exists a b, p = a ++ String "/" b /\ is_number a = true /\ is_number b = true /\
    First k <= digits_value a 0 <= Last k /\ 0 < digits_value b 0 <= INT_MAX /\
    digits_value b 0 mod 256 = 0.
Proof.
  rewrite process_part_values. unfold part_values.
  destruct (string_dec p "*"); [discriminate|].
  destruct (is_number p).
  { destruct (stoi p) eqn:S; cbv [bind]; try discriminate.
    intros _. exfalso. exact (stoi_not_diverge _ S). }
  destruct (get_range k p) as [[[l h]|]| e |] eqn:G; cbv [bind]; try discriminate;
    [| intros _; exfalso; exact (get_range_not_diverge _ _ G)].
  destruct (get_step k p) as [[[st sp]|]| e |] eqn:Gs; cbv [bind]; try discriminate;
    [| intros _; exfalso; exact (get_step_not_diverge _ _ Gs)].
  destruct (step_values k step_fuel st sp) eqn:V; cbv [bind]; try discriminate.
  intros _. destruct (get_step_some k p st sp Gs)
    as [a [b [-> [Ha [Hb [-> [Ba [Pb ->]]]]]]]].
  exists a, b. repeat split; try assumption; try lia.
  destruct (Z.eq_dec (digits_value b 0 mod 256) 0) as [Z0|Z0]; [exact Z0|].
  exfalso. apply (step_values_return k (digits_value a 0) (digits_value b 0 mod 256));
    [exact Ba | | exact V].
  pose proof (Z.mod_pos_bound (digits_value b 0) 256 ltac:(lia)). lia.
Qed.

(** process_parts fails to return (its [uint8_t] step loop never passes
    Last) exactly on a part [a/b] of two numerals whose start lies within
    the bounds and whose step is a positive multiple of 256 (at most
    [INT_MAX]); a list of parts fails to return only through such a part. *)
Theorem process_part_diverges_iff (k : FieldKind) (acc : set * bool) (p : string) :
  (process_part k acc p = Diverge <->
   exists a b, p = a ++ String "/" b /\ is_number a = true /\ is_number b = true /\
     First k <= digits_value a 0 <= Last k /\ 0 < digits_value b 0 <= INT_MAX /\
     digits_value b 0 mod 256 = 0) /\
  (forall parts S, process_parts k parts S = Diverge ->
   exists q a b, In q parts /\ q = a ++ String "/" b /\ is_number a = true /\
     is_number b = true /\ First k <= digits_value a 0 <= Last k /\
     0 < digits_value b 0 <= INT_MAX /\ digits_value b 0 mod 256 = 0).
Proof.
  split; [split|].
  - apply process_part_diverge_shape.
  - intros [a [b [-> [Ha [Hb [Ba [Pb Z0]]]]]]].
    destruct (slash_not_range k a b Ha Hb) as [G [N S]].
    unfold process_part. destruct (string_dec _ "*") as [X|_]; [contradiction|].
    rewrite N, G. cbv [bind]. rewrite get_step_joined by assumption. cbv [bind].
    rewrite Z0. apply step_loop_zero_step; [destruct k; simpl in *; lia | apply Last_lt_256].
  - intros parts S H. unfold process_parts in H.
    destruct (process_parts_from_stuck k parts (S, true) Diverge H) as [q [acc' [Hq Hp]]];
      [discriminate|].
    destruct (process_part_diverge_shape k acc' q Hp) as [a [b Hab]].
    exists q, a, b. split; [exact Hq | exact Hab].
Qed.

Lemma step_values_no_throw (k : FieldKind) :
  forall fuel v step e, step_values k fuel v step <> Throw e.
Proof.
  induction fuel as [|f IH]; intros v step e; simpl; [discriminate|].
  destruct (v <=? Last k); [|discriminate].
  specialize (IH ((v + step) mod 256) step e).
  destruct (step_values k f ((v + step) mod 256) step); cbv [bind]; congruence.
Qed.

Lemma process_part_throw_shape (k : FieldKind) (acc : set * bool) (p : string) (e : exn) :
  process_part k acc p = Throw e ->
  (is_number p = true /\ INT_MAX < digits_value p 0) \/
  exists a b sep, (sep = "-"%char \/ sep = "/"%char) /\ p = a ++ String sep b /\
    is_number a = true /\ is_number b = true /\
    (INT_MAX < digits_value a 0 \/ INT_MAX < digits_value b 0).
Proof.
  rewrite process_part_values. unfold part_values.
  destruct (string_dec p "*"); [discriminate|].
  destruct (is_number p) eqn:Np.
  { destruct (stoi p) eqn:S; cbv [bind]; try discriminate.
    intros _. left. split; [reflexivity | exact (stoi_throw _ _ S)]. }
  destruct (get_range k p) as [[[l h]|]| e' |] eqn:G; cbv [bind]; try discriminate.
  - destruct (get_step k p) as [[[st sp]|]| e'' |] eqn:Gs; cbv [bind]; try discriminate.
    + destruct (get_step_some k p st sp Gs)
        as [a [b [-> [Ha [Hb [_ [Ba [Pb _]]]]]]]].
      destruct (step_values k step_fuel st sp) eqn:V; cbv [bind]; try discriminate.
      intros _. exfalso. exact (step_values_no_throw k step_fuel st sp _ V).
    + intros _. right. destruct (get_step_throw k p e'' Gs) as [a [b [E H]]].
      exists a, b, "/"%char. split; [right; reflexivity | split; [exact E | exact H]].
  - intros _. right. destruct (get_range_throw k p e' G) as [a [b [E H]]].
    exists a, b, "-"%char. split; [left; reflexivity | split; [exact E | exact H]].
Qed.

Lemma process_part_throw_back (k : FieldKind) (acc : set * bool) (p : string) :
  ((is_number p = true /\ INT_MAX < digits_value p 0) \/
   exists a b sep, (sep = "-"%char \/ sep = "/"%char) /\ p = a ++ String sep b /\
     is_number a = true /\ is_number b = true /\
     (INT_MAX < digits_value a 0 \/ INT_MAX < digits_value b 0)) ->
  process_part k acc p = Throw out_of_range.
Proof.
  assert (St : forall a, INT_MAX < digits_value a 0 -> stoi a = Throw out_of_range).
  { intros a H. unfold stoi. destruct (Z.leb_spec (digits_value a 0) INT_MAX); [lia|reflexivity]. }
  intros [[N H] | [a [b [sep [Hs [-> [Ha [Hb Hv]]]]]]]].
  - unfold process_part. destruct (string_dec p "*") as [E|_]; [subst p; discriminate|].
    rewrite N, (St p H). reflexivity.
  - assert (Sa : stoi a = Throw out_of_range \/
        (stoi a = Ret (digits_value a 0) /\ stoi b = Throw out_of_range)).
    { destruct (Z.leb_spec (digits_value a 0) INT_MAX) as [La|La].
      - right. split; [unfold stoi; rewrite (proj2 (Z.leb_le _ _) La); reflexivity|].
        apply St. lia.
      - left. apply St. exact La. }
    destruct Sa as [Ta | [Ra Tb]]; destruct Hs as [-> | ->].
    + destruct (match_pair_joined "-" "/" a b Ha Hb) as [M1 [_ [N _]]]; try reflexivity.
      unfold process_part. destruct (string_dec _ "*") as [E|_].
      { exfalso. exact (proj2 (proj2 (proj2 (match_pair_joined "-" "/" a b Ha Hb
          eq_refl eq_refl eq_refl))) E). }
      rewrite N. unfold get_range. rewrite M1, Ta. reflexivity.
    + destruct (slash_not_range k a b Ha Hb) as [G [N S]].
      unfold process_part. destruct (string_dec _ "*") as [E|_]; [contradiction|].
      rewrite N, G. cbv [bind].
      destruct (match_pair_joined "/" "-" a b Ha Hb) as [M1 _]; try reflexivity.
      unfold get_step. rewrite M1, Ta. reflexivity.
    + destruct (match_pair_joined "-" "/" a b Ha Hb) as [M1 [_ [N S]]]; try reflexivity.
      unfold process_part. destruct (string_dec _ "*") as [E|_]; [contradiction|].
      rewrite N. unfold get_range. rewrite M1, Ra. cbv [bind]. rewrite Tb. reflexivity.
    + destruct (slash_not_range k a b Ha Hb) as [G [N S]].
      unfold process_part. destruct (string_dec _ "*") as [E|_]; [contradiction|].
      rewrite N, G. cbv [bind].
      destruct (match_pair_joined "/" "-" a b Ha Hb) as [M1 _]; try reflexivity.
      unfold get_step. rewrite M1, Ra. cbv [bind]. rewrite Tb. reflexivity.
Qed.

(** A part makes process_parts throw [std::out_of_range] (from [std::stoi])
    exactly when it is a numeral above [INT_MAX], or a pair of numerals
    joined by '-' or '/' with one of them above [INT_MAX]; the bounds of the
    field play no part in it. A list of parts throws only through such a
    part. *)
Theorem process_part_throws_iff (k : FieldKind) (acc : set * bool) (p : string) :
  ((exists e, process_part k acc p = Throw e) <->
   (is_number p = true /\ INT_MAX < digits_value p 0) \/
   exists a b sep, (sep = "-"%char \/ sep = "/"%char) /\ p = a ++ String sep b /\
     is_number a = true /\ is_number b = true /\
     (INT_MAX < digits_value a 0 \/ INT_MAX < digits_value b 0)) /\
  (forall parts S e, process_parts k parts S = Throw e ->
   exists q, In q parts /\
     ((is_number q = true /\ INT_MAX < digits_value q 0) \/
      exists a b sep, (sep = "-"%char \/ sep = "/"%char) /\ q = a ++ String sep b /\
        is_number a = true /\ is_number b = true /\
        (INT_MAX < digits_value a 0 \/ INT_MAX < digits_value b 0))).
Proof.
  split; [split|].
  - intros [e H]. exact (process_part_throw_shape k acc p e H).
  - intros H. exists out_of_range. exact (process_part_throw_back k acc p H).
  - intros parts S e H. unfold process_parts in H.
    destruct (process_parts_from_stuck k parts (S, true) (Throw e) H) as [q [acc' [Hq Hp]]];
      [discriminate|].
    exists q. split; [exact Hq | exact (process_part_throw_shape k acc' q e Hp)].
Qed.

(** to_calendar_time splits an instant at the floor of its day, also
    before 1970: its hour lies in 0..23 and its minute and second in 0..59
    (so the [uint8_t] casts of the source lose nothing), the day's start
    plus that time of day gives the instant back, and the date is the
    calendar date of the floored day number. *)
Theorem to_calendar_time_split (t : Z) :
  0 <= hour (to_calendar_time t) <= 23 /\
  0 <= min (to_calendar_time t) <= 59 /\
  0 <= sec (to_calendar_time t) <= 59 /\
  t = t / seconds_per_day * seconds_per_day + hour (to_calendar_time t) * 3600
      + min (to_calendar_time t) * 60 + sec (to_calendar_time t) /\
  (year (to_calendar_time t), month (to_calendar_time t), day (to_calendar_time t))
    = civil_from_days (t / seconds_per_day).
Proof.
  unfold to_calendar_time.
  destruct (civil_from_days (t / seconds_per_day)) as [[y m] d]. cbn [hour min sec year month day].
  unfold seconds_per_day.
  pose proof (Z.div_mod t 86400 ltac:(lia)) as Et.
  pose proof (Z.mod_pos_bound t 86400 ltac:(lia)) as Bt.
  set (r := t mod 86400) in *.
  pose proof (Z.div_mod r 3600 ltac:(lia)) as Er.
  pose proof (Z.mod_pos_bound r 3600 ltac:(lia)) as Br.
  set (r1 := r mod 3600) in *.
  pose proof (Z.div_mod r1 60 ltac:(lia)) as E1.
  pose proof (Z.mod_pos_bound r1 60 ltac:(lia)) as B1.
  assert (Hs : r mod 60 = r1 mod 60).
  { unfold r1. rewrite Z.mod_mod_divide; [reflexivity | exists 60; reflexivity]. }
  rewrite Hs.
  assert (0 <= r / 3600 <= 23) by (split; [apply Z.div_pos | apply Z.lt_succ_r, Z.div_lt_upper_bound]; lia).
  assert (0 <= r1 / 60 <= 59) by (split; [apply Z.div_pos | apply Z.lt_succ_r, Z.div_lt_upper_bound]; lia).
  repeat split; lia.
Qed.

(* ------------------------------------------------------------------ *)
(** ** Case of the letters *)

Lemma toupper_idem (c : ascii) : toupper (toupper c) = toupper c.
Proof. destruct c as [[] [] [] [] [] [] [] []]; reflexivity. Qed.

Lemma toupper_changes (c : ascii) :
  toupper c <> c -> numeral_char c = false /\ numeral_char (toupper c) = false /\
    Ascii.eqb (toupper c) "," = false /\ is_space (toupper c) = false /\
    toupper c <> "*"%char.
Proof. destruct c as [[] [] [] [] [] [] [] []]; vm_compute; try (intros H; exfalso; apply H; reflexivity);
  intros _; repeat split; discriminate. Qed.

Lemma upper_app (a b : string) : upper (a ++ b) = (upper a ++ upper b)%string.
Proof. induction a as [|c a IH]; simpl; [reflexivity | rewrite IH; reflexivity]. Qed.

Lemma upper_fixed (s : string) : all_chars (fun c => Ascii.eqb (toupper c) c) s = true -> upper s = s.
Proof.
  induction s as [|c r IH]; simpl; [reflexivity|].
  rewrite andb_true_iff, Ascii.eqb_eq. intros [E H]. rewrite E, IH by exact H. reflexivity.
Qed.

Lemma all_chars_mono (f g : ascii -> bool) (s : string) :
  (forall c, f c = true -> g c = true) -> all_chars f s = true -> all_chars g s = true.
Proof.
  intros Hfg. induction s as [|c r IH]; simpl; [reflexivity|].
  rewrite !andb_true_iff. intros [H1 H2]. split; [apply Hfg, H1 | apply IH, H2].
Qed.

Lemma all_chars_app (f : ascii -> bool) (a b : string) :
  all_chars f (a ++ b) = all_chars f a && all_chars f b.
Proof. induction a as [|c a IH]; simpl; [reflexivity | rewrite IH, andb_assoc; reflexivity]. Qed.

Lemma is_number_chars (s : string) : is_number s = true -> all_chars numeral_char s = true.
Proof.
  unfold is_number. destruct s as [|c r]; [discriminate|]. intros H.
  apply (all_chars_mono is_digit); [intros x Hx; unfold numeral_char; rewrite Hx; reflexivity|].
  change (all_digits (String c r) = true) in H. revert H. generalize (String c r).
  induction s as [|x t IH]; simpl; [reflexivity|].
  rewrite !andb_true_iff. intros [H1 H2]. split; [exact H1 | apply IH, H2].
Qed.

Lemma match_pair_chars (sep : ascii) (s a b : string) :
  numeral_char sep = true -> match_pair sep s = Some (a, b) -> all_chars numeral_char s = true.
Proof.
  intros Hs M. destruct (match_pair_some sep s a b M) as [E [Ha Hb]]. subst s.
  rewrite all_chars_app. simpl. rewrite (is_number_chars a Ha), (is_number_chars b Hb), Hs.
  reflexivity.
Qed.

Lemma process_part_not_numeral (k : FieldKind) (acc : set * bool) (q : string) :
  all_chars numeral_char q = false -> q <> "*" -> process_part k acc q = Ret (fst acc, false).
Proof.
  intros Hq Hs. unfold process_part.
  destruct (string_dec q "*") as [E|_]; [contradiction|].
  destruct (is_number q) eqn:N.
  { rewrite (is_number_chars q N) in Hq. discriminate. }
  unfold get_range. destruct (match_pair "-" q) as [[a b]|] eqn:M.
  { rewrite (match_pair_chars "-" q a b eq_refl M) in Hq. discriminate. }
  cbv [bind]. unfold get_step. destruct (match_pair "/" q) as [[a b]|] eqn:M2.
  { rewrite (match_pair_chars "/" q a b eq_refl M2) in Hq. discriminate. }
  reflexivity.
Qed.

Lemma upper_changes (p : string) :
  all_chars (fun c => Ascii.eqb (toupper c) c) p = false ->
  all_chars numeral_char p = false /\ all_chars numeral_char (upper p) = false /\
  p <> "*" /\ upper p <> "*".
Proof.
  induction p as [|c r IH]; simpl; [discriminate|].
  destruct (Ascii.eqb (toupper c) c) eqn:E; simpl.
  - intros H. destruct (IH H) as [A [B [C D]]]. rewrite A, B, !andb_false_r.
    split; [reflexivity | split; [reflexivity|]].
    split; intros X; injection X; intros Hr _; destruct r;
      solve [simpl in H; discriminate | discriminate Hr].
  - intros _. apply Ascii.eqb_neq in E.
    destruct (toupper_changes c E) as [N1 [N2 [_ [_ N5]]]].
    rewrite N1, N2. split; [reflexivity | split; [reflexivity|]].
    split; intros X; injection X as X _.
    + subst c. apply E. reflexivity.
    + exact (N5 X).
Qed.

Lemma process_part_upper (k : FieldKind) (acc : set * bool) (p : string) :
  process_part k acc (upper p) = process_part k acc p.
Proof.
  destruct (all_chars (fun c => Ascii.eqb (toupper c) c) p) eqn:F.
  - rewrite (upper_fixed p F). reflexivity.
  - destruct (upper_changes p F) as [A [B [C D]]].
    rewrite (process_part_not_numeral k acc p A C), (process_part_not_numeral k acc _ B D).
    reflexivity.
Qed.

Lemma process_parts_from_upper (k : FieldKind) :
  forall parts acc, process_parts_from k (map upper parts) acc = process_parts_from k parts acc.
Proof.
  induction parts as [|p ps IH]; intros acc; simpl; [reflexivity|].
  rewrite process_part_upper. destruct (process_part k acc p); cbv [bind]; [apply IH | |];
    reflexivity.
Qed.

Lemma split_by_upper (sep : ascii -> bool) (s : string) :
  (forall c, sep (toupper c) = sep c) ->
  split_by sep (upper s) = map upper (split_by sep s).
Proof.
  intros Hs. induction s as [|c r IH]; simpl; [reflexivity|].
  rewrite Hs, IH. destruct (sep c); [reflexivity|].
  destruct (split_by sep r); reflexivity.
Qed.

Lemma comma_upper (c : ascii) : Ascii.eqb (toupper c) "," = Ascii.eqb c ",".
Proof. destruct c as [[] [] [] [] [] [] [] []]; reflexivity. Qed.

Lemma ci_eq_upper (a b : ascii) : ci_eq a (toupper b) = ci_eq a b.
Proof. unfold ci_eq. rewrite toupper_idem. reflexivity. Qed.

Lemma ci_prefix_upper (w : string) : forall s, ci_prefix w (upper s) = ci_prefix w s.
Proof.
  induction w as [|a w IH]; intros s; [reflexivity|].
  destruct s as [|b s]; simpl; [reflexivity|]. rewrite ci_eq_upper, IH. reflexivity.
Qed.

Lemma regex_replace_ci_upper (w repl : string) :
  upper repl = repl ->
  forall s n, regex_replace_ci w repl n (upper s) = upper (regex_replace_ci w repl n s).
Proof.
  intros Hr. induction s as [|c r IH]; intros n; [reflexivity|].
  destruct n as [|n].
  - change (upper (String c r)) with (String (toupper c) (upper r)).
    cbn [regex_replace_ci]. rewrite <- (ci_prefix_upper w (String c r)).
    change (upper (String c r)) with (String (toupper c) (upper r)).
    destruct (ci_prefix w (String (toupper c) (upper r))).
    + rewrite upper_app, Hr, IH. reflexivity.
    + rewrite IH. reflexivity.
  - cbn [regex_replace_ci upper]. apply IH.
Qed.

Lemma upper_string_of_uint (d : Decimal.uint) :
  upper (NilEmpty.string_of_uint d) = NilEmpty.string_of_uint d.
Proof. induction d; simpl; try rewrite IHd; reflexivity. Qed.

Lemma upper_to_string (x : Z) : upper (to_string x) = to_string x.
Proof.
  unfold to_string, NilEmpty.string_of_int. destruct (Z.to_int x) as [d|d];
    [| simpl]; rewrite upper_string_of_uint; reflexivity.
Qed.

Lemma replace_names_upper (names : list string) :
  forall v parts, replace_names names v (map upper parts) = map upper (replace_names names v parts).
Proof.
  induction names as [|w ns IH]; intros v parts; simpl; [reflexivity|].
  rewrite <- IH, !map_map. f_equal. apply map_ext. intros s.
  apply regex_replace_ci_upper, upper_to_string.
Qed.

Lemma validate_upper (k : FieldKind) (s : string) (numbers : set) (names : list string) :
  validate_numeric k (upper s) numbers = validate_numeric k s numbers /\
  validate_literal k (upper s) numbers names = validate_literal k s numbers names.
Proof.
  unfold validate_numeric, validate_literal, process_parts, split.
  rewrite (split_by_upper _ s (fun c => comma_upper c)).
  split; [apply process_parts_from_upper|].
  rewrite replace_names_upper. apply process_parts_from_upper.
Qed.

(** validate_numeric and validate_literal ignore the case of the letters of
    the field, whatever the name table: two fields that agree once
    upper-cased give the same set and the same validity, or both throw. A
    part that still holds a letter after the names are replaced fails the
    same way in either case. *)
Theorem validate_ignores_case (k : FieldKind) (s1 s2 : string) (numbers : set)
  (names : list string) :
  upper s1 = upper s2 ->
  validate_numeric k s1 numbers = validate_numeric k s2 numbers /\
  validate_literal k s1 numbers names = validate_literal k s2 numbers names.
Proof.
  intros E.
  destruct (validate_upper k s1 numbers names) as [N1 L1].
  destruct (validate_upper k s2 numbers names) as [N2 L2].
  rewrite <- N1, <- L1, E, N2, L2. split; reflexivity.
Qed.

(* ------------------------------------------------------------------ *)
(** ** The result of process_parts and the 8-bit cast *)

Lemma digits_value_nonneg (s : string) :
  forall acc, all_digits s = true -> 0 <= acc -> 0 <= digits_value s acc.
Proof.
  induction s as [|c r IH]; intros acc H Ha; simpl in *; [exact Ha|].
  apply andb_true_iff in H as [Hc Hr]. apply IH; [exact Hr|].
  unfold is_digit in Hc. apply andb_true_iff in Hc as [H1 _].
  apply Nat.leb_le in H1. lia.
Qed.

Lemma step_values_range (k : FieldKind) :
  forall fuel v step vs, 0 <= v -> step_values k fuel v step = Ret vs ->
  forall x, In x vs -> 0 <= x <= Last k.
Proof.
  induction fuel as [|f IH]; intros v step vs Hv H x Hx; simpl in H; [discriminate|].
  destruct (Z.leb_spec v (Last k)).
  - destruct (step_values k f ((v + step) mod 256) step) as [vs'| |] eqn:E;
      cbv [bind] in H; try discriminate.
    injection H as <-. destruct Hx as [<- | Hx]; [lia|].
    apply (IH _ _ _ (proj1 (Z.mod_pos_bound (v + step) 256 ltac:(lia))) E _ Hx).
  - injection H as <-. destruct Hx.
Qed.

(** Only a numeral can bring a value past 255 to [add_number]. *)
Lemma part_values_small (k : FieldKind) (p : string) (vs : list Z) (v : Z) :
  part_values k p = Ret (Some vs) -> In v vs ->
  0 <= v < 256 \/ (is_number p = true /\ v = digits_value p 0).
Proof.
  unfold part_values. destruct (string_dec p "*").
  { intros H Hv. injection H as <-. apply zrange_In in Hv. left. destruct k; simpl in Hv; lia. }
  destruct (is_number p) eqn:N.
  { destruct (stoi p) as [m| |] eqn:S; cbv [bind]; try discriminate.
    intros H Hv. injection H as <-. destruct Hv as [<- | []].
    right. split; [reflexivity | apply stoi_ret, S]. }
  destruct (get_range k p) as [[[l h]|]| |] eqn:G; cbv [bind]; try discriminate.
  - intros H Hv. injection H as <-.
    destruct (get_range_some k p l h G) as [a [b [_ [_ [_ [_ [_ [Bl Bh]]]]]]]].
    apply (range_values_inb k l h v Bl Bh) in Hv. left. unfold inb in Hv.
    destruct k; simpl in Hv; lia.
  - destruct (get_step k p) as [[[st sp]|]| |] eqn:Gs; cbv [bind]; try discriminate.
    destruct (step_values k step_fuel st sp) as [ws| |] eqn:V; cbv [bind]; try discriminate.
    intros H Hv. injection H as <-.
    destruct (get_step_some k p st sp Gs) as [a [b [_ [_ [_ [_ [Bs _]]]]]]].
    assert (R : 0 <= v <= Last k).
    { apply (step_values_range k step_fuel st sp ws); [destruct k; simpl in Bs; lia | exact V | exact Hv]. }
    left. pose proof (Last_lt_256 k). lia.
Qed.

Lemma add_list_snd_exact (k : FieldKind) :
  forall vs acc, acc_inv k acc -> (forall v, In v vs -> 0 <= v < 256) ->
  snd (add_list k acc vs) = snd acc && forallb (inb_b k) vs.
Proof.
  induction vs as [|v vs IH]; intros acc Hi Hs; simpl; [rewrite andb_true_r; reflexivity|].
  assert (Hi2 : acc_inv k (add_acc k acc v)) by (apply add_number_inb, Hi).
  rewrite (IH _ Hi2) by (intros w Hw; apply Hs; right; exact Hw). simpl.
  rewrite add_number_snd.
  replace (to_T v) with v by (symmetry; apply Z.mod_small, Hs; left; reflexivity).
  destruct (find (fst acc) v) eqn:F; simpl.
  - apply find_In, Hi, inb_b_inb in F. rewrite F. apply eq_sym, andb_assoc.
  - apply eq_sym, andb_assoc.
Qed.

(** Without a numeral past 255 the result is true exactly when every part
    has a shape and only in-bounds values. *)
Lemma process_parts_from_exact (k : FieldKind) :
  forall parts acc acc',
    process_parts_from k parts acc = Ret acc' -> acc_inv k acc ->
    (forall p, In p parts -> is_number p = true -> digits_value p 0 < 256) ->
    snd acc' = snd acc && forallb (part_okb k) parts.
Proof.
  induction parts as [|p ps IH]; intros acc acc' Hr Hi Hn; simpl in Hr.
  - injection Hr as <-. rewrite andb_true_r. reflexivity.
  - rewrite process_part_values in Hr. cbn [forallb].
    destruct (part_values k p) as [[vs|]| |] eqn:Pv; simpl in Hr; try discriminate.
    + assert (Eo : part_okb k p = forallb (inb_b k) vs) by (unfold part_okb; rewrite Pv; reflexivity).
      rewrite Eo. rewrite (IH _ _ Hr (add_list_inb k vs acc Hi))
        by (intros q Hq; apply Hn; right; exact Hq).
      rewrite add_list_snd_exact; [apply eq_sym, andb_assoc | exact Hi |].
      intros v Hv. destruct (part_values_small k p vs v Pv Hv) as [B | [N ->]]; [exact B|].
      split; [apply digits_value_nonneg; [apply is_number_all_digits, N | lia]|].
      apply Hn; [left; reflexivity | exact N].
    + assert (Eo : part_okb k p = false) by (unfold part_okb; rewrite Pv; reflexivity).
      rewrite Eo. rewrite (IH _ _ Hr Hi) by (intros q Hq; apply Hn; right; exact Hq).
      simpl. rewrite !andb_false_r. reflexivity.
Qed.

(** process_parts on a set within the bounds of its field: when it
    returns, the set holds the old values and the in-bounds values of the
    parts and stays without duplicates. The result is true when every part
    has a shape and only in-bounds values; a true result means every part
    has a shape and every value lies within the bounds once cast to the
    8-bit field type; and with no numeral past 255 among the parts the
    result is true exactly when every part has a shape and only in-bounds
    values. *)
Theorem process_parts_union (k : FieldKind) (parts : list string) (S S' : set) (b : bool) :
  set_inb k S -> process_parts k parts S = Ret (S', b) ->
  (forallb (part_okb k) parts = true -> b = true) /\
  (b = true -> forallb (part_modb k) parts = true) /\
  ((forall p, In p parts -> is_number p = true -> digits_value p 0 < 256) ->
     b = forallb (part_okb k) parts) /\
  (forall x, In x S' <->
     In x S \/
     (First k <= x <= Last k /\
      exists p vs, In p parts /\ part_values k p = Ret (Some vs) /\ In x vs)) /\
  (NoDup S -> NoDup S') /\
  set_inb k S'.
Proof.
  intros Hi Hr. unfold process_parts in Hr.
  destruct (process_parts_from_ret k parts (S, true) (S', b) Hr Hi) as [Hi' [Hok Hmod]].
  split; [exact Hok|]. split; [intros Hb; exact (proj2 (Hmod Hb))|].
  split; [intros Hn; exact (process_parts_from_exact k parts (S, true) (S', b) Hr Hi Hn)|].
  split; [|split].
  - exact (process_parts_from_In k parts (S, true) (S', b) Hr Hi).
  - intros Hd. exact (process_parts_from_NoDup k parts (S, true) (S', b) Hr Hd).
  - exact Hi'.
Qed.

(** The order of the comma-separated parts does not change the set:
    when process_parts returns on some order of the parts, it returns on
    any other order with a set of the same values. The result is the same
    too when no numeral past 255 is among the parts; otherwise it may
    differ, as for ["0,256"] and ["256,0"] on seconds. *)
Theorem process_parts_perm (k : FieldKind) (parts parts' : list string) (S S1 : set) (b : bool) :
  Permutation parts parts' -> set_inb k S ->
  process_parts k parts S = Ret (S1, b) ->
  (exists S2 b2, process_parts k parts' S = Ret (S2, b2) /\
     (forall x, In x S1 <-> In x S2) /\
     ((forall p, In p parts -> is_number p = true -> digits_value p 0 < 256) -> b2 = b)) /\
  process_parts Seconds ["0"; "256"] [] = Ret ([0], true) /\
  process_parts Seconds ["256"; "0"] [] = Ret ([0], false).
Proof.
  intros P Hi Hr. split; [|split; vm_compute; reflexivity].
  assert (R : exists acc', process_parts_from k parts' (S, true) = Ret acc').
  { apply process_parts_from_returns.
    pose proof (proj1 (process_parts_from_returns k parts (S, true)) (ex_intro _ _ Hr)) as F.
    rewrite Forall_forall in *. intros p Hp. apply F. apply (Permutation_in p (Permutation_sym P)), Hp. }
  destruct R as [[S2 b2] R].
  unfold process_parts in Hr.
  pose proof (process_parts_from_In k parts (S, true) (S1, b) Hr Hi) as M1.
  pose proof (process_parts_from_In k parts' (S, true) (S2, b2) R Hi) as M2.
  exists S2, b2. split; [exact R|]. split.
  - intros x. rewrite M1, M2. split.
    + intros [H | [Hb [p [vs [Hp H]]]]]; [left; exact H|].
      right. split; [exact Hb|]. exists p, vs. split; [apply (Permutation_in p P), Hp | exact H].
    + intros [H | [Hb [p [vs [Hp H]]]]]; [left; exact H|].
      right. split; [exact Hb|]. exists p, vs.
      split; [apply (Permutation_in p (Permutation_sym P)), Hp | exact H].
  - intros Hn.
    assert (Hn' : forall p, In p parts' -> is_number p = true -> digits_value p 0 < 256)
      by (intros p Hp; apply Hn, (Permutation_in p (Permutation_sym P)), Hp).
    pose proof (process_parts_from_exact k parts (S, true) (S1, b) Hr Hi Hn) as E1.
    pose proof (process_parts_from_exact k parts' (S, true) (S2, b2) R Hi Hn') as E2.
    simpl in E1, E2. rewrite E1, E2. apply forallb_perm, Permutation_sym, P.
Qed.

(* ------------------------------------------------------------------ *)
(** ** Names replaced in place *)

Lemma slen_app (a b : string) : String.length (a ++ b) = (String.length a + String.length b)%nat.
Proof. induction a as [|c a IH]; simpl; [reflexivity | rewrite IH; reflexivity]. Qed.

Lemma sapp_assoc (a b c : string) : (a ++ (b ++ c))%string = ((a ++ b) ++ c)%string.
Proof. induction a as [|x a IH]; simpl; [reflexivity | rewrite IH; reflexivity]. Qed.

Lemma length_upper (s : string) : String.length (upper s) = String.length s.
Proof. induction s as [|c r IH]; simpl; [reflexivity | rewrite IH; reflexivity]. Qed.

Lemma letter_toupper (c : ascii) : letter (toupper c) = letter c.
Proof. unfold letter. rewrite toupper_idem. reflexivity. Qed.

Lemma ci_prefix_app_long (w : string) :
  forall s z, (String.length w <= String.length s)%nat -> ci_prefix w (s ++ z) = ci_prefix w s.
Proof.
  induction w as [|a w IH]; intros s z H; [reflexivity|].
  destruct s as [|c s]; simpl in H; [lia|]. simpl. rewrite IH by lia. reflexivity.
Qed.

Lemma ci_prefix_self (w : string) : forall z, ci_prefix w (w ++ z) = true.
Proof.
  induction w as [|a w IH]; intros z; [reflexivity|]. simpl.
  unfold ci_eq. rewrite Ascii.eqb_refl. apply IH.
Qed.

(** What may follow a segment: nothing, a character that is no letter,
    or a name of the table. *)
Definition good_next (T : list string) (Y : string) : Prop :=
  Y = EmptyString \/ (exists c r, Y = String c r /\ letter c = false) \/
  (exists U z, In U T /\ Y = (U ++ z)%string).

Lemma ci_prefix_short (w : string) :
  forall s Y, all_letters w = true -> (String.length s < String.length w)%nat ->
  (Y = EmptyString \/ exists c r, Y = String c r /\ letter c = false) ->
  ci_prefix w (s ++ Y) = false.
Proof.
  induction w as [|a w IH]; intros s Y Hw Hl HY; [simpl in Hl; lia|].
  simpl in Hw. apply andb_true_iff in Hw as [Ha Hw].
  destruct s as [|c s].
  - destruct HY as [-> | [c [r [-> Hc]]]]; [reflexivity|]. simpl.
    destruct (ci_eq a c) eqn:E; [|reflexivity].
    apply ci_eq_letter in E. congruence.
  - simpl. simpl in Hl. rewrite (IH s Y Hw ltac:(lia) HY). apply andb_false_r.
Qed.

Lemma no_match_short (w : string) :
  forall x Y, all_letters w = true -> (String.length x < String.length w)%nat ->
  (Y = EmptyString \/ exists c r, Y = String c r /\ letter c = false) ->
  no_match_in w x Y = true.
Proof.
  intros x. induction x as [|c r IH]; intros Y Hw Hl HY; [reflexivity|].
  cbn [no_match_in]. rewrite (ci_prefix_short w (String c r) Y Hw Hl HY).
  simpl in Hl. apply IH; [exact Hw | lia | exact HY].
Qed.

Lemma no_match_upper (w : string) :
  forall x y, no_match_in w x y = no_match_in w (upper x) (upper y).
Proof.
  intros x. induction x as [|c r IH]; intros y; [reflexivity|].
  cbn [no_match_in upper]. rewrite IH. f_equal. f_equal.
  rewrite <- (ci_prefix_upper w (String c r ++ y)). cbn [upper append].
  rewrite upper_app. reflexivity.
Qed.

Lemma no_match_app_long (w : string) :
  forall x y z, (String.length w <= String.length y)%nat ->
  no_match_in w x (y ++ z) = no_match_in w x y.
Proof.
  intros x. induction x as [|c r IH]; intros y z H; [reflexivity|].
  cbn [no_match_in]. rewrite IH by exact H. f_equal. f_equal.
  rewrite sapp_assoc. apply ci_prefix_app_long.
  rewrite slen_app. lia.
Qed.

Lemma no_match_lit (w : string) :
  name_ok w = true -> forall l y, no_letters l = true -> no_match_in w l y = true.
Proof.
  intros Hw l. induction l as [|c r IH]; intros y Hl; [reflexivity|].
  simpl in Hl. apply andb_true_iff in Hl as [Hc Hr].
  cbn [no_match_in append]. rewrite ci_prefix_nonletter;
    [| exact Hw | destruct (letter c); [discriminate | reflexivity]].
  apply IH, Hr.
Qed.

Lemma replace_app_nomatch (w repl : string) :
  forall x y, no_match_in w x y = true ->
  regex_replace_ci w repl O (x ++ y) = (x ++ regex_replace_ci w repl O y)%string.
Proof.
  intros x. induction x as [|c r IH]; intros y H; [reflexivity|].
  cbn [no_match_in] in H. apply andb_true_iff in H as [H1 H2].
  apply negb_true_iff in H1. cbn [append] in *. cbn [regex_replace_ci].
  rewrite H1, IH by exact H2. reflexivity.
Qed.

Lemma replace_skip_all (w repl : string) :
  forall x y, regex_replace_ci w repl (String.length x) (x ++ y) = regex_replace_ci w repl O y.
Proof. intros x. induction x as [|c r IH]; intros y; [reflexivity|]. apply IH. Qed.

Section Table.
Variable T : list string.
Hypothesis T_ok : table_ok T = true.

Lemma table_name (w : string) :
  In w T -> String.length w = 3%nat /\ name_ok w = true /\ upper w = w.
Proof.
  intros H. unfold table_ok in T_ok. apply andb_true_iff in T_ok as [A _].
  rewrite forallb_forall in A. apply A in H.
  apply andb_true_iff in H as [H Hu]. apply andb_true_iff in H as [Hl Hn].
  apply Nat.eqb_eq in Hl. apply String.eqb_eq in Hu. auto.
Qed.

Lemma table_pair (w u : string) :
  In w T -> In u T -> w <> u ->
  ci_prefix w u = false /\ forall u', In u' T -> no_match_in w u u' = true.
Proof.
  intros Hw Hu Hne. unfold table_ok in T_ok. apply andb_true_iff in T_ok as [_ B].
  rewrite forallb_forall in B. specialize (B w Hw). rewrite forallb_forall in B.
  specialize (B u Hu). apply orb_true_iff in B as [B | B].
  - apply String.eqb_eq in B. contradiction.
  - apply andb_true_iff in B as [B1 B2]. apply negb_true_iff in B1.
    rewrite forallb_forall in B2. auto.
Qed.

Lemma segs_good (ss : list seg) :
  forallb (seg_ok T) ss = true -> good_next T (upper (segs_str ss)).
Proof.
  induction ss as [|s ss IH]; intros H; [left; reflexivity|].
  simpl in H. apply andb_true_iff in H as [Hs Hss].
  destruct s as [u | l]; simpl in Hs |- *; rewrite upper_app.
  - apply existsb_exists in Hs as [U [HU E]]. apply String.eqb_eq in E.
    right. right. exists U, (upper (segs_str ss)). rewrite E. auto.
  - destruct l as [|c r]; [apply IH, Hss|].
    simpl in Hs. apply andb_true_iff in Hs as [Hc _].
    right. left. exists (toupper c), (upper r ++ upper (segs_str ss))%string.
    split; [reflexivity|]. rewrite letter_toupper. destruct (letter c); [discriminate | reflexivity].
Qed.

(** A name of the table other than [w] is not touched by the replacement of
    [w], whatever follows it. *)
Lemma no_match_name (w u Y : string) :
  In w T -> In (upper u) T -> upper u <> w -> good_next T (upper Y) ->
  no_match_in w u Y = true.
Proof.
  intros Hw Hu Hne HY. rewrite no_match_upper.
  destruct (table_pair w (upper u) Hw Hu (not_eq_sym Hne)) as [P0 P].
  destruct (table_name w Hw) as [Lw [Nw _]].
  destruct (table_name (upper u) Hu) as [Lu _].
  destruct HY as [HY | [HY | [U' [z [HU' ->]]]]].
  - destruct (upper u) as [|A r] eqn:EU; [simpl in Lu; discriminate|].
    cbn [no_match_in]. rewrite ci_prefix_app_long by (simpl in *; lia). rewrite P0. simpl.
    apply no_match_short; [unfold name_ok in Nw; apply andb_true_iff in Nw; tauto | simpl in Lu; lia |].
    left. exact HY.
  - destruct (upper u) as [|A r] eqn:EU; [simpl in Lu; discriminate|].
    cbn [no_match_in]. rewrite ci_prefix_app_long by (simpl in *; lia). rewrite P0. simpl.
    apply no_match_short; [unfold name_ok in Nw; apply andb_true_iff in Nw; tauto | simpl in Lu; lia |].
    right. exact HY.
  - rewrite no_match_app_long by (destruct (table_name U' HU') as [L' _]; lia).
    apply P, HU'.
Qed.

(** One round of the loop: the name [w] is replaced in every segment that
    spells it, and nowhere else. *)
Lemma replace_segs (w repl : string) :
  In w T -> no_letters repl = true ->
  forall ss, forallb (seg_ok T) ss = true ->
  regex_replace_ci w repl O (segs_str ss) = segs_str (map (subst_seg w repl) ss) /\
  forallb (seg_ok T) (map (subst_seg w repl) ss) = true.
Proof.
  intros Hw Hr ss. destruct (table_name w Hw) as [Lw [Nw Uw]].
  induction ss as [|s ss IH]; intros H; [split; reflexivity|].
  simpl in H. apply andb_true_iff in H as [Hs Hss]. destruct (IH Hss) as [IH1 IH2].
  destruct s as [u | l]; simpl in Hs.
  - apply existsb_exists in Hs as [U [HU E]]. apply String.eqb_eq in E. subst U.
    cbn [map subst_seg segs_str seg_str].
    destruct (String.eqb (upper u) w) eqn:Euw.
    + apply String.eqb_eq in Euw.
      destruct u as [|c r]; [simpl in Euw; subst w; discriminate|].
      cbn [append]. cbn [regex_replace_ci].
      assert (M : ci_prefix w (String c (r ++ segs_str ss)) = true).
      { rewrite <- ci_prefix_upper. change (String c (r ++ segs_str ss)) with (String c r ++ segs_str ss)%string.
        rewrite upper_app, Euw. apply ci_prefix_self. }
      rewrite M. replace (pred (String.length w)) with (String.length r)
        by (rewrite <- Euw, length_upper; reflexivity).
      rewrite replace_skip_all, IH1. simpl. split; [reflexivity|]. rewrite IH2, Hr. reflexivity.
    + apply String.eqb_neq in Euw.
      rewrite replace_app_nomatch by (apply no_match_name; [exact Hw | exact HU | exact Euw | apply segs_good, Hss]).
      rewrite IH1. split; [reflexivity|]. simpl. rewrite IH2, andb_true_r.
      apply existsb_exists. exists (upper u). split; [exact HU | apply String.eqb_refl].
  - cbn [map subst_seg segs_str seg_str].
    rewrite replace_app_nomatch by (apply no_match_lit; assumption).
    rewrite IH1. split; [reflexivity|]. simpl. rewrite Hs, IH2. reflexivity.
Qed.

Lemma spec_seg_value_nil (v : Z) (s : seg) : spec_seg_value [] v s = s.
Proof. destruct s; reflexivity. Qed.

Lemma spec_seg_value_cons (w : string) (ns : list string) (v : Z) (s : seg) :
  spec_seg_value ns (v + 1) (subst_seg w (to_string v) s) = spec_seg_value (w :: ns) v s.
Proof.
  destruct s as [u | l]; [|reflexivity]. simpl.
  destruct (String.eqb (upper u) w) eqn:E; simpl; [rewrite Z.add_0_r; reflexivity|].
  destruct (name_index ns (upper u)) as [i|]; simpl; [|reflexivity].
  do 2 f_equal. lia.
Qed.

(** The loop of [validate_literal] on parts made of segments. *)
Lemma replace_names_segs (names : list string) :
  forall v segss, (forall w, In w names -> In w T) -> names_ok names v = true ->
  Forall (fun ss => forallb (seg_ok T) ss = true) segss ->
  replace_names names v (map segs_str segss) =
  map (fun ss => segs_str (map (spec_seg_value names v) ss)) segss.
Proof.
  induction names as [|w ns IH]; intros v segss Hin Hn Hs; simpl.
  - apply map_ext. intros ss. rewrite (map_ext _ (fun s => s)) by apply spec_seg_value_nil.
    rewrite map_id. reflexivity.
  - apply andb_true_iff in Hn as [Hn Hns]. apply andb_true_iff in Hn as [_ Hr].
    unfold repl_ok in Hr. apply andb_true_iff in Hr as [_ Hr].
    assert (Hw : In w T) by (apply Hin; left; reflexivity).
    rewrite map_map.
    rewrite (map_ext_in _ (fun ss => segs_str (map (subst_seg w (to_string v)) ss))) by
      (intros ss Hss; rewrite Forall_forall in Hs; apply (replace_segs w _ Hw Hr ss (Hs ss Hss))).
    rewrite <- (map_map (map (subst_seg w (to_string v))) segs_str).
    rewrite IH; [| intros x Hx; apply Hin; right; exact Hx | exact Hns |].
    + rewrite map_map. apply map_ext. intros ss. rewrite map_map.
      f_equal. apply map_ext. apply spec_seg_value_cons.
    + rewrite Forall_forall in *. intros ss' Hss'. apply in_map_iff in Hss' as [ss [<- Hss]].
      apply (replace_segs w _ Hw Hr ss (Hs ss Hss)).
Qed.
End Table.

Lemma names_of_table_ok (k : FieldKind) : table_ok (names_of k) = true.
Proof. destruct k; vm_compute; reflexivity. Qed.

Lemma name_index_nth (names : list string) :
  NoDup names -> forall i w, nth_error names i = Some w -> name_index names w = Some i.
Proof.
  induction names as [|n ns IH]; intros Hd i w H; [destruct i; discriminate|].
  inversion Hd as [|? ? Hn Hd']; subst.
  destruct i as [|i]; simpl in H.
  - injection H as <-. simpl. rewrite String.eqb_refl. reflexivity.
  - simpl. destruct (String.eqb w n) eqn:E.
    + apply String.eqb_eq in E. subst. apply nth_error_In in H. contradiction.
    + rewrite (IH Hd' i w H). reflexivity.
Qed.

Lemma names_of_NoDup (k : FieldKind) : NoDup (names_of k).
Proof. destruct k; simpl; repeat constructor; simpl; intuition discriminate. Qed.

(** C4: for months and days of the week, a token whose parts are made of
    names of the field, in any case, and runs of characters without
    letters is processed as the parts in which every name, also inside a
    longer part such as [Feb-apr] or [Mon-Fri], is replaced in place by the
    numeral of its ordinal ([First] plus its position in the table, so
    Jan=1..Dec=12 and Sun=0..Sat=6) and everything else is left as it is;
    after the substitution no part holds a name in any case; parts without
    letters are left as they are; and [JAN-MAR,DEC] gives the months 1, 2,
    3 and 12 and none of 4 to 11. *)
Theorem literal_names_substituted (k : FieldKind) (tok : string) (segss : list (list seg)) :
  split tok "," = map segs_str segss ->
  forallb (forallb (seg_ok (names_of k))) segss = true ->
  field_parts k tok = map (spec_substituted k) segss /\
  (forall S, validate_literal k tok S (names_of k) =
             process_parts k (map (spec_substituted k) segss) S) /\
  (forall u i, nth_error (names_of k) i = Some (upper u) ->
     spec_seg_value (names_of k) (First k) (Name u) = Lit (to_string (First k + Z.of_nat i))) /\
  (forall p w, In p (field_parts k tok) -> In w (names_of k) -> occurs_ci w p = false) /\
  ((forall p, In p (split tok ",") -> no_letters p = true) -> field_parts k tok = split tok ",") /\
  field_of "* * * * JAN-MAR,DEC *" Months = [1; 2; 3; 12] /\
  (forall x, 4 <= x <= 11 -> ~ In x (field_of "* * * * JAN-MAR,DEC *" Months)).
Proof.
  intros Hsplit Hok.
  assert (F : field_parts k tok = map (spec_substituted k) segss).
  { unfold field_parts. rewrite Hsplit.
    apply (replace_names_segs (names_of k) (names_of_table_ok k)); [auto | apply names_of_ok |].
    apply Forall_forall. rewrite forallb_forall in Hok. exact Hok. }
  assert (E : field_of "* * * * JAN-MAR,DEC *" Months = [1; 2; 3; 12])
    by (vm_compute; reflexivity).
  split; [exact F|]. split; [|split; [|split; [|split; [|split]]]].
  - intros S. unfold validate_literal. fold (field_parts k tok). rewrite F. reflexivity.
  - intros u i H. simpl. rewrite (name_index_nth _ (names_of_NoDup k) i _ H). reflexivity.
  - intros p w Hp Hw.
    apply (replace_names_clear (names_of k) (First k) (split tok ",") []
             (names_of_ok k) eq_refl) with (p := p); [intros _ _ _ [] | exact Hp | exact Hw].
  - intros Hp. apply replace_names_id; [apply names_start_with_letters | exact Hp].
  - exact E.
  - rewrite E. intros x Hx Hin. simpl in Hin. lia.
Qed.

(* ------------------------------------------------------------------ *)
(** ** Instances of the properties above *)

Ltac set_inb_list :=
  let x := fresh "x" in let H := fresh "H" in
  intros x H; simpl in H;
  repeat (destruct H as [<- | H]; [unfold inb; simpl; lia |]); contradiction.

Lemma add_number_adds_in_bounds_witness :
  In 5 (fst (add_number Hours [1; 2] 5)) /\ snd (add_number Hours [1; 2] 25) = false.
Proof.
  assert (Hs : set_inb Hours [1; 2]) by set_inb_list.
  assert (Hn : NoDup [1; 2]) by (repeat constructor; simpl; intuition lia).
  split.
  - apply (proj1 (proj2 (add_number_adds_in_bounds Hours [1; 2] 5 Hs Hn)) 5).
    right. split; [reflexivity | simpl; lia].
  - destruct (snd (add_number Hours [1; 2] 25)) eqn:E; [|reflexivity].
    apply (proj1 (add_number_adds_in_bounds Hours [1; 2] 25 Hs Hn)) in E.
    destruct E as [E | E]; [simpl in E; lia | vm_compute in E; intuition discriminate].
Defined.

Lemma add_full_range_union_idem_witness :
  NoDup (add_full_range Hours [3]) /\ In 23 (add_full_range Hours [3]).
Proof.
  assert (Hs : set_inb Hours [3]) by set_inb_list.
  destruct (add_full_range_union_idem Hours [3] Hs) as [I [N _]].
  split.
  - apply N. repeat constructor. intros [].
  - apply (proj2 (I 23)). right. simpl. lia.
Defined.

Lemma process_parts_union_witness :
  true = forallb (part_okb Hours) ["1"; "3-5"] /\ NoDup [1; 3; 4; 5].
Proof.
  assert (Hs : set_inb Hours []) by set_inb_list.
  assert (E : process_parts Hours ["1"; "3-5"] [] = Ret ([1; 3; 4; 5], true))
    by (vm_compute; reflexivity).
  destruct (process_parts_union Hours ["1"; "3-5"] [] [1; 3; 4; 5] true Hs E)
    as [_ [_ [B [_ [N _]]]]].
  split; [|apply N; constructor].
  apply B. intros p Hp Np. simpl in Hp.
  destruct Hp as [<- | [<- | []]]; [vm_compute; reflexivity | discriminate Np].
Defined.

Lemma process_parts_perm_witness :
  exists S2, process_parts Hours ["3-5"; "1"] [] = Ret (S2, true) /\
    (forall x, In x [1; 3; 4; 5] <-> In x S2).
Proof.
  assert (Hs : set_inb Hours []) by set_inb_list.
  assert (E : process_parts Hours ["1"; "3-5"] [] = Ret ([1; 3; 4; 5], true))
    by (vm_compute; reflexivity).
  destruct (process_parts_perm Hours ["1"; "3-5"] ["3-5"; "1"] [] [1; 3; 4; 5] true
    (perm_swap _ _ _) Hs E) as [[S2 [b2 [R [I F]]]] _].
  assert (B : b2 = true).
  { apply F. intros p Hp Np. simpl in Hp.
    destruct Hp as [<- | [<- | []]]; [vm_compute; reflexivity | discriminate Np]. }
  subst b2. exists S2. split; [exact R | exact I].
Defined.

Lemma get_range_result_witness : get_range Hours "3-5" = Ret (Some (3, 5)).
Proof.
  exact (proj1 (proj2 (get_range_result Hours "3-5")) "3" "5" eq_refl eq_refl eq_refl
    ltac:(vm_compute; split; discriminate) ltac:(vm_compute; split; discriminate)).
Defined.

Lemma get_step_result_witness : get_step Seconds "0/256" = Ret (Some (0, 0)).
Proof.
  exact (proj1 (proj2 (get_step_result Seconds "0/256")) "0" "256" eq_refl eq_refl eq_refl
    ltac:(vm_compute; split; discriminate) ltac:(vm_compute; split; [reflexivity | discriminate])).
Defined.

Lemma step_part_no_wrap_witness :
  exists S', process_part Seconds ([], true) ("0" ++ "/" ++ "15") = Ret (S', true) /\ In 45 S'.
Proof.
  assert (Hs : set_inb Seconds (fst ([] : set, true))) by set_inb_list.
  destruct (step_part_no_wrap Seconds "0" "15" ([], true) eq_refl eq_refl Hs
    ltac:(vm_compute; split; discriminate) ltac:(vm_compute; reflexivity)
    ltac:(vm_compute; reflexivity)) as [S' [E I]].
  exists S'. split; [exact E|]. apply I. right. vm_compute. split; [split; discriminate | reflexivity].
Defined.

Lemma process_part_diverges_iff_witness : process_part Seconds ([], true) "0/256" = Diverge.
Proof.
  apply (proj2 (proj1 (process_part_diverges_iff Seconds ([], true) "0/256"))).
  exists "0", "256". split; [reflexivity|]. split; [reflexivity|]. split; [reflexivity|].
  vm_compute. split; [split; discriminate|]. split; [split; [reflexivity | discriminate] | reflexivity].
Defined.

Lemma process_part_throws_iff_witness :
  exists e, process_part Seconds ([], true) "1-99999999999" = Throw e.
Proof.
  apply (proj2 (proj1 (process_part_throws_iff Seconds ([], true) "1-99999999999"))).
  right. exists "1", "99999999999", "-"%char.
  split; [left; reflexivity|]. split; [reflexivity|]. split; [reflexivity|].
  split; [reflexivity|]. right. vm_compute. reflexivity.
Defined.

Lemma validate_ignores_case_witness :
  validate_literal Months "jan-mar" [] month_names = validate_literal Months "JAN-Mar" [] month_names.
Proof.
  exact (proj2 (validate_ignores_case Months "jan-mar" "JAN-Mar" [] month_names
    ltac:(vm_compute; reflexivity))).
Defined.

Lemma literal_names_substituted_witness :
  field_parts Months "Feb-apr,Dec" = ["2-4"; "12"].
Proof.
  destruct (literal_names_substituted Months "Feb-apr,Dec"
    [[Name "Feb"; Lit "-"; Name "apr"]; [Name "Dec"]]
    ltac:(vm_compute; reflexivity) ltac:(vm_compute; reflexivity)) as [F _].
  rewrite F. vm_compute. reflexivity.
Defined.
